(** * fetch_steam_applist.py: fetch the Steam app list and write it as CSV

    A shallow embedding of [src/fetch_steam_applist.py] and the properties
    its specification states about it.

    - Python values that come out of [resp.json()] are the type [jvalue].
    - A Python [str] is the list of its code points; a text file holds such
      a list.
    - Code that raises returns a [result]; the generator [extract_apps] is
      the list of what it yields together with the way it stops.
    - Code with effects (network, sleeping, console, files) runs in the
      state-and-exception monad [M] over a [World].
    - A Python [float] is a binary64 number: [spec_float] with the
      operations of [SpecFloat] at precision 53; the delay handed to
      [time.sleep] is the rounded product the code computes.
    - The requests sent and the sleeps are kept in one list, in the order
      in which they happen. *)

From Stdlib Require Import ZArith NArith List String Ascii QArith Lia Sorted.
From Stdlib Require Import DecimalPos DecimalZ.
From Stdlib Require Import Floats.SpecFloat.
From stdpp Require Import gmap list.

Set Warnings "-register-all".
Local Open Scope Z_scope.

(** ** Python values *)

(** A [str] is the sequence of its code points. *)
Abbreviation pystr := (list N).

(** The text of an ASCII literal of the source. *)
Definition lit (s : string) : pystr := map N_of_ascii (list_ascii_of_string s).

(** The exceptions the program can meet; all of them derive from
    [Exception]. [NetworkError] stands for what [requests.get] raises
    (connection, DNS, timeout), [HTTPError] for [raise_for_status]. *)
Inductive exn :=
| AttributeError
| TypeError
| ValueError
| OverflowError
| NetworkError (code : Z)
| HTTPError (status : Z)
| JSONDecodeError
| OSError (errno : Z)
| UnicodeEncodeError
| EOFError
| CsvError.

Inductive result (A : Type) :=
| Ok (a : A)
| Raise (e : exn).
Arguments Ok {A} a.
Arguments Raise {A} e.

#[global] Instance result_ret : MRet result := fun A a => Ok a.
#[global] Instance result_bind : MBind result := fun A B f r =>
  match r with
  | Ok a => f a
  | Raise e => Raise e
  end.

(** What [json.loads] builds: [None], [bool], [int], [float], [str],
    [list] and [dict] with [str] keys. The program only looks keys up in a
    [dict], so the insertion order of its keys is not kept. *)
Inductive jvalue :=
| JNull
| JBool (b : bool)
| JInt (z : Z)
| JFloat (f : spec_float)
| JStr (s : pystr)
| JList (l : list jvalue)
| JObj (m : gmap pystr jvalue).

(** Truth value of an object, as [or] and [if] test it. *)
Definition py_truthy (v : jvalue) : bool :=
  match v with
  | JNull => false
  | JBool b => b
  | JInt z => negb (z =? 0)
  | JFloat (S754_zero _) => false
  | JFloat _ => true
  | JStr [] => false
  | JStr (_ :: _) => true
  | JList [] => false
  | JList (_ :: _) => true
  | JObj m => match map_to_list m with [] => false | _ :: _ => true end
  end.

(** [a or b]: [a] when it is true, [b] otherwise. *)
Definition py_or (a b : jvalue) : jvalue := if py_truthy a then a else b.

(** [d.get(k)]: only a [dict] has the method; a missing key gives [None]. *)
Definition py_get (d : jvalue) (k : pystr) : result jvalue :=
  match d with
  | JObj m => Ok (default JNull (m !! k))
  | _ => Raise AttributeError
  end.

(** [for e in v]: the elements of a list, the characters of a string, the
    keys of a dict; the other values are not iterable. *)
Definition py_iter (v : jvalue) : result (list jvalue) :=
  match v with
  | JList l => Ok l
  | JStr s => Ok (map (fun c => JStr [c]) s)
  | JObj m => Ok (map (fun kv => JStr (fst kv)) (map_to_list m))
  | _ => Raise TypeError
  end.

(** [int(f)] for a float: truncation toward zero. *)
Definition int_of_float (f : spec_float) : result Z :=
  match f with
  | S754_zero _ => Ok 0
  | S754_infinity _ => Raise OverflowError
  | S754_nan => Raise ValueError
  | S754_finite s m e =>
      let a := if 0 <=? e then Z.pos m * 2 ^ e else Z.pos m / 2 ^ (- e) in
      Ok (if s then - a else a)
  end.

(** A [float]: binary64, with products and conversions rounded to the
    nearest, ties to even. *)
Definition prec : Z := 53.
Definition emax : Z := 1024.

Definition fmul : spec_float -> spec_float -> spec_float := SFmul prec emax.

Definition float_of_Z (z : Z) : spec_float := binary_normalize prec emax z 0 false.

(** [float(z)], also where an int meets a float in a product: an int
    beyond the range of the floats raises. *)
Definition float_of_int (z : Z) : result spec_float :=
  match float_of_Z z with
  | S754_infinity _ => Raise OverflowError
  | f => Ok f
  end.

(** The number a float stands for; only the finite ones have one. *)
Definition float_value (f : spec_float) : Q :=
  match f with
  | S754_finite s m e =>
      let n := if s then Z.neg m else Z.pos m in
      if 0 <=? e then inject_Z (n * 2 ^ e) else Qmake n (Z.to_pos (2 ^ (- e)))
  | _ => 0%Q
  end.

(** The interpreter refuses to convert between [int] and [str] when more
    than [MAX_STR_DIGITS] decimal digits are involved
    ([sys.int_info.default_max_str_digits]); it raises [ValueError]. *)
Definition MAX_STR_DIGITS : Z := 4300.

Definition within_str_digits (z : Z) : bool := Z.abs z <? 10 ^ MAX_STR_DIGITS.
Arguments within_str_digits : simpl never.

(** The digits [str(z)] gives for an int within that limit, with a minus
    sign when negative; [write_csv] and [py_int] check the limit where the
    program converts. *)
Fixpoint digits_of_uint (d : Decimal.uint) : pystr :=
  match d with
  | Decimal.Nil => []
  | Decimal.D0 r => 48%N :: digits_of_uint r
  | Decimal.D1 r => 49%N :: digits_of_uint r
  | Decimal.D2 r => 50%N :: digits_of_uint r
  | Decimal.D3 r => 51%N :: digits_of_uint r
  | Decimal.D4 r => 52%N :: digits_of_uint r
  | Decimal.D5 r => 53%N :: digits_of_uint r
  | Decimal.D6 r => 54%N :: digits_of_uint r
  | Decimal.D7 r => 55%N :: digits_of_uint r
  | Decimal.D8 r => 56%N :: digits_of_uint r
  | Decimal.D9 r => 57%N :: digits_of_uint r
  end.

Definition str_of_int (z : Z) : pystr :=
  match Z.to_int z with
  | Decimal.Pos d => digits_of_uint d
  | Decimal.Neg d => 45%N :: digits_of_uint d
  end.

(** [c.isspace()]: the code points [str.strip()] removes. *)
Definition py_isspace (c : N) : bool :=
  ((0x09 <=? c) && (c <=? 0x0D) || (0x1C <=? c) && (c <=? 0x20)
   || (c =? 0x85) || (c =? 0xA0) || (c =? 0x1680)
   || (0x2000 <=? c) && (c <=? 0x200A)
   || (c =? 0x2028) || (c =? 0x2029) || (c =? 0x202F) || (c =? 0x205F)
   || (c =? 0x3000))%N.

Fixpoint lstrip (s : pystr) : pystr :=
  match s with
  | c :: r => if py_isspace c then lstrip r else s
  | [] => []
  end.

Definition rstrip (s : pystr) : pystr := rev (lstrip (rev s)).

(** [s.strip()] *)
Definition strip (s : pystr) : pystr := rstrip (lstrip s).

(** A generator that has been run to its end: what it yielded, in order,
    and how it stopped ([None]: it returned; [Some e]: it raised [e]). *)
Record gen (A : Type) := Gen { yielded : list A; stopped : option exn }.
Arguments Gen {A} yielded stopped.
Arguments yielded {A} g.
Arguments stopped {A} g.

Definition gen_yield {A} (a : A) (g : gen A) : gen A :=
  Gen (a :: yielded g) (stopped g).

(** [list(g)] *)
Definition py_list {A} (g : gen A) : result (list A) :=
  match stopped g with
  | None => Ok (yielded g)
  | Some e => Raise e
  end.

(** ** The extractor *)

(** Three pieces of text handling belong to the interpreter and are taken
    as given: [int(s)] of a string ([None] when it raises [ValueError];
    [py_int] adds the limit on the number of digits), what [str(v)] gives
    for a float, a list or a dict (a text, or the [ValueError] of an int
    inside with too many digits), and the pieces of text
    [json.dump(data, jf, ensure_ascii=False, indent=2)] writes one after
    the other. *)
Class Interpreter := {
  int_of_str : pystr -> option Z;
  py_repr : jvalue -> result pystr;
  json_chunks : jvalue -> list pystr;
}.

Section Extractor.

Context {python : Interpreter}.

(** [int(v)] *)
Definition py_int (v : jvalue) : result Z :=
  match v with
  | JNull => Raise TypeError
  | JBool b => Ok (if b then 1 else 0)
  | JInt z => Ok z
  | JFloat f => int_of_float f
  | JStr s =>
      match int_of_str s with
      | Some z => if within_str_digits z then Ok z else Raise ValueError
      | None => Raise ValueError
      end
  | JList _ => Raise TypeError
  | JObj _ => Raise TypeError
  end.

(** [str(v)] *)
Definition py_str (v : jvalue) : result pystr :=
  match v with
  | JNull => Ok (lit "None")
  | JBool true => Ok (lit "True")
  | JBool false => Ok (lit "False")
  | JInt z => if within_str_digits z then Ok (str_of_int z) else Raise ValueError
  | JStr s => Ok s
  | JFloat _ | JList _ | JObj _ => py_repr v
  end.

(** Line 61: [e.get("appid") or e.get("AppId") or e.get("AppID")]: the
    first of the three values that is true, else the third. *)
Definition appid_of (e : jvalue) : result jvalue :=
  a1 ← py_get e (lit "appid");
  if py_truthy a1 then Ok a1 else
  a2 ← py_get e (lit "AppId");
  if py_truthy a2 then Ok a2 else
  py_get e (lit "AppID").

(** Line 62: [e.get("name") or e.get("Name") or ""] *)
Definition name_of (e : jvalue) : result jvalue :=
  n1 ← py_get e (lit "name");
  if py_truthy n1 then Ok n1 else
  n2 ← py_get e (lit "Name");
  Ok (py_or n2 (JStr [])).

(** One turn of the loop body: the two lookups run outside the [try]; the
    [try] covers the two conversions and the [yield]. *)
Inductive turn :=
| Yield (p : Z * pystr)
| Skip
| Crash (e : exn).

Definition entry_turn (e : jvalue) : turn :=
  match appid_of e with
  | Raise ex => Crash ex
  | Ok appid =>
      match name_of e with
      | Raise ex => Crash ex
      | Ok name =>
          match py_int appid with
          | Ok i =>
              match py_str name with
              | Ok s => Yield (i, strip s)
              | Raise _ => Skip
              end
          | Raise _ => Skip
          end
      end
  end.

(** The pair an entry gives, if it gives one. *)
Definition pair_of (e : jvalue) : option (Z * pystr) :=
  match entry_turn e with
  | Yield p => Some p
  | _ => None
  end.

(** Lines 59-67: the loop over the entries. *)
Fixpoint extract_loop (apps : list jvalue) : gen (Z * pystr) :=
  match apps with
  | [] => Gen [] None
  | e :: rest =>
      match entry_turn e with
      | Yield p => gen_yield p (extract_loop rest)
      | Skip => extract_loop rest
      | Crash ex => Gen [] (Some ex)
      end
  end.

(** Lines 57-59: the collection the loop walks. *)
Definition raw_entries (json_data : jvalue) : result (list jvalue) :=
  a ← py_get json_data (lit "applist");
  let applist := py_or a (JObj ∅) in
  b ← py_get applist (lit "apps");
  let apps := py_or b (JList []) in
  py_iter apps.

Definition extract_apps (json_data : jvalue) : gen (Z * pystr) :=
  match raw_entries json_data with
  | Ok apps => extract_loop apps
  | Raise ex => Gen [] (Some ex)
  end.

End Extractor.

(** ** The CSV format

    [csv.writer(f)] with the default dialect: delimiter [,], quote character
    code 34, doubled quotes, minimal quoting, line terminator [\r\n]. *)

Definition COMMA : N := 44.
Definition QUOTE : N := 34.
Definition CR : N := 13.
Definition LF : N := 10.

(** The characters that make the writer quote a field. *)
Definition csv_special (c : N) : bool :=
  ((c =? COMMA) || (c =? QUOTE) || (c =? CR) || (c =? LF))%N.

(** The body of a quoted field: every quote character is doubled. *)
Fixpoint csv_escape (s : pystr) : pystr :=
  match s with
  | [] => []
  | c :: r => if (c =? QUOTE)%N then QUOTE :: QUOTE :: csv_escape r
              else c :: csv_escape r
  end.

(** One field of a record; [alone] says it is the only field of its row,
    in which case an empty field is quoted too. *)
Definition csv_field (alone : bool) (s : pystr) : pystr :=
  if existsb csv_special s || (alone && bool_decide (s = []))
  then QUOTE :: csv_escape s ++ [QUOTE]
  else s.

Fixpoint csv_join (fields : list pystr) : pystr :=
  match fields with
  | [] => []
  | [f] => f
  | f :: rest => f ++ COMMA :: csv_join rest
  end.

(** The line [w.writerow(fields)] hands to [f.write]. *)
Definition csv_row (fields : list pystr) : pystr :=
  csv_join (map (csv_field (bool_decide (length fields = 1%nat))) fields)
  ++ [CR; LF].

(** The rows of [write_csv]: the header, then one row per pair. *)
Definition header_row : list pystr := [lit "AppId"; lit "Name"].

Definition data_row (p : Z * pystr) : list pystr := [str_of_int (fst p); snd p].

(** *** Reading a CSV text back

    The reader of the same dialect ([csv.reader] over a file opened with
    [newline=""], not strict, no limit on the size of a field): the file
    is cut into lines after [\n], after a [\r] that no [\n] follows, and at
    its end; the automaton below is run on the characters of each line and
    then on the end-of-line mark; a record is complete when the automaton
    is back at [START_RECORD]. *)

Inductive parser_state :=
| START_RECORD
| START_FIELD
| IN_FIELD
| IN_QUOTED_FIELD
| QUOTE_IN_QUOTED_FIELD
| EAT_CRNL.

(** The reader: its state, the field being read (last character first) and
    the finished fields of the current record (last field first). *)
Record reader := Reader {
  state : parser_state;
  field : pystr;
  fields : list pystr;
}.

Definition add_char (c : N) (r : reader) : reader :=
  Reader (state r) (c :: field r) (fields r).

Definition save_field (r : reader) : reader :=
  Reader (state r) [] (rev (field r) :: fields r).

Definition set_state (s : parser_state) (r : reader) : reader :=
  Reader s (field r) (fields r).

Definition is_newline (c : N) : bool := ((c =? LF) || (c =? CR))%N.

(** One step of the automaton on a character ([Some c]) or on the
    end-of-line mark ([None]). *)
Definition process_char (r : reader) (c : option N) : result reader :=
  match state r with
  | START_RECORD =>
      match c with
      | None => Ok r
      | Some ch =>
          if is_newline ch then Ok (set_state EAT_CRNL r)
          else if (ch =? QUOTE)%N then Ok (set_state IN_QUOTED_FIELD r)
          else if (ch =? COMMA)%N then Ok (set_state START_FIELD (save_field r))
          else Ok (set_state IN_FIELD (add_char ch r))
      end
  | START_FIELD =>
      match c with
      | None => Ok (set_state START_RECORD (save_field r))
      | Some ch =>
          if is_newline ch then Ok (set_state EAT_CRNL (save_field r))
          else if (ch =? QUOTE)%N then Ok (set_state IN_QUOTED_FIELD r)
          else if (ch =? COMMA)%N then Ok (save_field r)
          else Ok (set_state IN_FIELD (add_char ch r))
      end
  | IN_FIELD =>
      match c with
      | None => Ok (set_state START_RECORD (save_field r))
      | Some ch =>
          if is_newline ch then Ok (set_state EAT_CRNL (save_field r))
          else if (ch =? COMMA)%N then Ok (set_state START_FIELD (save_field r))
          else Ok (add_char ch r)
      end
  | IN_QUOTED_FIELD =>
      match c with
      | None => Ok r
      | Some ch =>
          if (ch =? QUOTE)%N then Ok (set_state QUOTE_IN_QUOTED_FIELD r)
          else Ok (add_char ch r)
      end
  | QUOTE_IN_QUOTED_FIELD =>
      match c with
      | None => Ok (set_state START_RECORD (save_field r))
      | Some ch =>
          if (ch =? QUOTE)%N then Ok (set_state IN_QUOTED_FIELD (add_char ch r))
          else if (ch =? COMMA)%N then Ok (set_state START_FIELD (save_field r))
          else if is_newline ch then Ok (set_state EAT_CRNL (save_field r))
          else Ok (set_state IN_FIELD (add_char ch r))
      end
  | EAT_CRNL =>
      match c with
      | None => Ok (set_state START_RECORD r)
      | Some ch => if is_newline ch then Ok r else Raise CsvError
      end
  end.

(** The end of a line: the end-of-line mark is processed, and a record
    that is complete goes to the [rows] read so far (last row first). *)
Definition end_of_line (r : reader) (rows : list (list pystr))
  : result (reader * list (list pystr)) :=
  r' ← process_char r None;
  match state r' with
  | START_RECORD => Ok (Reader START_RECORD [] [], rev (fields r') :: rows)
  | _ => Ok (r', rows)
  end.

(** Does a line end after [c], when [rest] is what follows in the file? *)
Definition line_ends (c : N) (rest : pystr) : bool :=
  ((c =? LF) || (c =? CR) && negb (bool_decide (head rest = Some LF)))%N.

(** The whole text; [open_line] says whether characters of an unfinished
    line have been read. *)
Fixpoint read_text (text : pystr) (open_line : bool) (r : reader)
    (rows : list (list pystr)) : result (list (list pystr)) :=
  match text with
  | [] =>
      '(r', rows') ← (if open_line then end_of_line r rows else Ok (r, rows));
      (* no line is left: a record cut short is returned as it stands *)
      if negb (bool_decide (field r' = []))
         || (match state r' with IN_QUOTED_FIELD => true | _ => false end)
      then Ok (rev (rev (fields (save_field r')) :: rows'))
      else Ok (rev rows')
  | c :: rest =>
      r1 ← process_char r (Some c);
      if line_ends c rest then
        '(r2, rows2) ← end_of_line r1 rows;
        read_text rest false r2 rows2
      else read_text rest true r1 rows
  end.

Definition csv_read (text : pystr) : result (list (list pystr)) :=
  read_text text false (Reader START_RECORD [] []) [].

(** ** The world the program runs in *)

(** What [requests.get] is called with. *)
Record request := Request {
  url : pystr;
  headers : list (pystr * pystr);
  timeout : Z;
}.

(** What comes back: [requests.get] raised, or a response with its status
    code and the JSON value its body holds ([None] when the body is not
    JSON). *)
Inductive response :=
| Failed (e : exn)
| Response (status_code : Z) (body : option jvalue).

(** The lines the program prints on the diagnostic stream. *)
Inductive message :=
| KeyIgnored
| AttemptFailed (attempt : Z) (ex : exn)
| Fetching
| FetchFailed (ex : exn)
| JsonSaveFailed (ex : exn)
| Fetched (count : nat) (out : pystr)
| CsvFailed (ex : exn)
| Done.

(** What the program does on the network and with the clock: a request
    issued, or a [time.sleep] that has been carried out, with its
    argument. *)
Inductive event :=
| Sent (rq : request)
| Slept (d : spec_float).

Record World := MkWorld {
  (** the server: its answer to the request issued after [n] others *)
  network : nat -> request -> response;
  (** the requests and the sleeps, oldest first *)
  traffic : list event;
  (** the delays the operating system refuses, with the error *)
  sleep_error : spec_float -> option exn;
  (** the diagnostic stream *)
  stderr : list message;
  (** the prompts [input] has shown *)
  prompts : list pystr;
  (** the lines still to come on standard input; none: end of file *)
  stdin : list pystr;
  (** the text files on disk *)
  files : gmap pystr pystr;
  (** the paths that cannot be opened for writing, with the error *)
  open_error : pystr -> option exn;
}.

Definition request_of (ev : event) : option request :=
  match ev with
  | Sent rq => Some rq
  | Slept _ => None
  end.

Definition delay_of (ev : event) : option spec_float :=
  match ev with
  | Sent _ => None
  | Slept d => Some d
  end.

(** The requests issued, oldest first, and the arguments of the sleeps. *)
Definition sent (w : World) : list request := omap request_of (traffic w).

Definition slept (w : World) : list spec_float := omap delay_of (traffic w).

(** The world after one more request, sleep, diagnostic line or prompt, and
    with another standard input or disk. *)
Definition add_event (ev : event) (w : World) : World :=
  MkWorld (network w) (traffic w ++ [ev]) (sleep_error w) (stderr w)
          (prompts w) (stdin w) (files w) (open_error w).

Definition add_sent (rq : request) : World -> World := add_event (Sent rq).

Definition add_slept (d : spec_float) : World -> World := add_event (Slept d).

Definition add_stderr (msg : message) (w : World) : World :=
  MkWorld (network w) (traffic w) (sleep_error w) (stderr w ++ [msg])
          (prompts w) (stdin w) (files w) (open_error w).

Definition add_prompt (p : pystr) (w : World) : World :=
  MkWorld (network w) (traffic w) (sleep_error w) (stderr w)
          (prompts w ++ [p]) (stdin w) (files w) (open_error w).

Definition set_stdin (lines : list pystr) (w : World) : World :=
  MkWorld (network w) (traffic w) (sleep_error w) (stderr w) (prompts w)
          lines (files w) (open_error w).

Definition set_files (fs : gmap pystr pystr) (w : World) : World :=
  MkWorld (network w) (traffic w) (sleep_error w) (stderr w) (prompts w)
          (stdin w) fs (open_error w).

(** State and exceptions. *)
Definition M (A : Type) : Type := World -> result A * World.

#[global] Instance M_ret : MRet M := fun A a w => (Ok a, w).
#[global] Instance M_bind : MBind M := fun A B f m w =>
  match m w with
  | (Ok a, w') => f a w'
  | (Raise e, w') => (Raise e, w')
  end.
#[global] Instance M_fmap : FMap M := fun A B f m w =>
  match m w with
  | (Ok a, w') => (Ok (f a), w')
  | (Raise e, w') => (Raise e, w')
  end.

Definition raise {A} (e : exn) : M A := fun w => (Raise e, w).

(** A computation that only returns or raises. *)
Definition lift {A} (r : result A) : M A := fun w => (r, w).

(** [try: body  except Exception as ex: handler ex] *)
Definition try_except {A} (body : M A) (handler : exn -> M A) : M A := fun w =>
  match body w with
  | (Ok a, w') => (Ok a, w')
  | (Raise e, w') => handler e w'
  end.

(** [print(msg, file=sys.stderr)] *)
Definition print (msg : message) : M unit := fun w => (Ok tt, add_stderr msg w).

(** [time.sleep(d)] first turns the delay into a whole number of
    nanoseconds: the product of [d] and [1e9] as floats, rounded away from
    zero. *)
Definition billion : spec_float := float_of_Z 1000000000.

Definition nanoseconds (d : spec_float) : option Z :=
  match fmul d billion with
  | S754_zero _ => Some 0
  | S754_finite s m e =>
      let a := if 0 <=? e then Z.pos m * 2 ^ e
               else (Z.pos m + 2 ^ (- e) - 1) / 2 ^ (- e) in
      Some (if s then - a else a)
  | _ => None
  end.

(** What the interpreter refuses before it asks the operating system: a
    NaN, a number of nanoseconds outside the 64-bit integers, a negative
    one. (The number [2 ^ 63] passes the range test, which is made on
    floats, and is then converted to the least 64-bit integer.) *)
Definition sleep_refusal (d : spec_float) : option exn :=
  match d with
  | S754_nan => Some ValueError
  | _ =>
      match nanoseconds d with
      | None => Some OverflowError
      | Some ns =>
          if (ns <? - 2 ^ 63) || (2 ^ 63 <? ns) then Some OverflowError
          else if (ns <? 0) || (ns =? 2 ^ 63) then Some ValueError
          else None
      end
  end.

(** [time.sleep(d)]: a delay that the interpreter or the operating system
    refuses raises; the others are slept. *)
Definition sleep (d : spec_float) : M unit := fun w =>
  match sleep_refusal d with
  | Some e => (Raise e, w)
  | None =>
      match sleep_error w d with
      | Some e => (Raise e, w)
      | None => (Ok tt, add_slept d w)
      end
  end.

(** [input(prompt)]: shows the prompt and waits for a line; at end of file
    it raises. *)
Definition input (prompt : pystr) : M pystr := fun w =>
  match stdin w with
  | line :: rest => (Ok line, set_stdin rest (add_prompt prompt w))
  | [] => (Raise EOFError, add_prompt prompt w)
  end.

(** The statuses whose answer has no body, whatever the server sends:
    informational, no content, not modified. *)
Definition bodiless (status : Z) : bool :=
  (100 <=? status) && (status <? 200) || (status =? 204) || (status =? 304).

(** [requests.get(url, headers=headers, timeout=timeout)] *)
Definition requests_get (u : pystr) (h : list (pystr * pystr)) (t : Z)
  : M (Z * option jvalue) := fun w =>
  let rq := Request u h t in
  match network w (length (sent w)) rq with
  | Failed e => (Raise e, add_sent rq w)
  | Response st b => (Ok (st, if bodiless st then None else b), add_sent rq w)
  end.

(** [resp.raise_for_status()]: client and server errors raise. *)
Definition raise_for_status (resp : Z * option jvalue) : M unit :=
  if (400 <=? fst resp) && (fst resp <? 600) then raise (HTTPError (fst resp))
  else mret tt.

(** The values the JSON decoder can build: its ints come from [int] of
    their digits, so they are within the limit on digits, and its floats
    are binary64 numbers. A body with a longer int makes the decoder raise
    [ValueError]. *)
Fixpoint json_decodable (v : jvalue) : bool :=
  match v with
  | JInt z => within_str_digits z
  | JFloat f => valid_binary prec emax f
  | JList l => forallb json_decodable l
  | JObj m => map_fold (fun _ x acc => json_decodable x && acc) true m
  | _ => true
  end.

(** [resp.json()] *)
Definition resp_json (resp : Z * option jvalue) : M jvalue :=
  match snd resp with
  | Some j => if json_decodable j then mret j else raise ValueError
  | None => raise JSONDecodeError
  end.

(** A code point the UTF-8 codec writes: not a surrogate. *)
Definition encodable (c : N) : bool :=
  ((c <? 0xD800) || (0xDFFF <? c) && (c <=? 0x10FFFF))%N.

(** [open(path, "w", encoding="utf-8")]: the file is created or emptied. *)
Definition open_w (path : pystr) : M unit := fun w =>
  match open_error w path with
  | Some e => (Raise e, w)
  | None => (Ok tt, set_files (<[path := []]> (files w)) w)
  end.

(** [f.write(text)] on the file opened at [path]. *)
Definition file_write (path : pystr) (text : pystr) : M unit := fun w =>
  if forallb encodable text then
    (Ok tt, set_files (<[path := default [] (files w !! path) ++ text]> (files w)) w)
  else (Raise UnicodeEncodeError, w).

(** [for x in xs: body x] *)
Fixpoint for_each {A} (xs : list A) (body : A -> M unit) : M unit :=
  match xs with
  | [] => mret tt
  | x :: rest => body x ;; for_each rest body
  end.

(** ** The fetcher *)

Definition DEFAULT_API_KEY : pystr := lit "1B27234A8D97A72C97E53BC43D646C1F".
Definition DEFAULT_URL : pystr :=
  lit "https://api.steampowered.com/ISteamApps/GetAppList/v2/".

(** The default [backoff=2.0] of [fetch_applist]. *)
Definition DEFAULT_BACKOFF : spec_float := S754_finite false 4503599627370496 (-51).

Definition fetch_headers : list (pystr * pystr) :=
  [(lit "User-Agent", lit "fetch_steam_applist/1.0");
   (lit "Accept", lit "application/json")].

(** Lines 43-48: the body of the [try]. *)
Definition fetch_try (timeout : Z) : M jvalue :=
  resp ← requests_get DEFAULT_URL fetch_headers timeout;
  (if fst resp =? 404 then raise_for_status resp else mret tt);;
  raise_for_status resp;;
  resp_json resp.

(** What an attempt makes of the server's answer: a transport error and
    an error status raise, and so does a body that is missing or is not
    JSON the decoder accepts. *)
Definition attempt_result (r : response) : result jvalue :=
  match r with
  | Failed e => Raise e
  | Response st b =>
      if (400 <=? st) && (st <? 600) then Raise (HTTPError st)
      else if bodiless st then Raise JSONDecodeError
      else match b with
           | Some j => if json_decodable j then Ok j else Raise ValueError
           | None => Raise JSONDecodeError
           end
  end.

(** The request every attempt issues. *)
Definition the_request (timeout : Z) : request :=
  Request DEFAULT_URL fetch_headers timeout.

(** Line 53: [backoff * attempt], a float times an int. *)
Definition retry_delay (backoff : spec_float) (attempt : Z) : result spec_float :=
  f ← float_of_int attempt; Ok (fmul backoff f).

(** Lines 40-53: the loop. It runs at most [max_attempts] times, which is
    the [fuel] that [fetch_applist] gives it; when the condition fails the
    function returns [None]. *)
Fixpoint fetch_loop (fuel : nat) (timeout max_attempts : Z)
    (backoff : spec_float) (attempt : Z) : M jvalue :=
  if attempt <? max_attempts then
    match fuel with
    | O => mret JNull
    | S fuel' =>
        let attempt := attempt + 1 in
        got ← try_except (Some <$> fetch_try timeout) (fun ex =>
                 print (AttemptFailed attempt ex);;
                 (if max_attempts <=? attempt then raise ex else mret tt);;
                 d ← lift (retry_delay backoff attempt);
                 sleep d;;
                 mret None);
        match got with
        | Some data => mret data
        | None => fetch_loop fuel' timeout max_attempts backoff attempt
        end
    end
  else mret JNull.

Definition fetch_applist (api_key : pystr) (timeout max_attempts : Z)
    (backoff : spec_float) : M jvalue :=
  (if bool_decide (api_key = []) then mret tt else print KeyIgnored);;
  fetch_loop (Z.to_nat max_attempts) timeout max_attempts backoff 0.

(** ** The writer *)

(** Line 75: [writer.writerow([appid, name])]; the row is written once
    [str(appid)] has given the digits. *)
Definition write_row (path : pystr) (p : Z * pystr) : M unit :=
  (if within_str_digits (fst p) then mret tt else raise ValueError);;
  file_write path (csv_row (data_row p)).

Definition write_csv (path : pystr) (apps : list (Z * pystr)) : M unit :=
  open_w path;;
  file_write path (csv_row header_row);;
  for_each apps (write_row path).

(** ** The program *)

Record args := Args {
  api_key : pystr;
  out : pystr;
  json : bool;
}.

Definition PROMPT : pystr := lit "Press Enter to exit...".

Section Main.

Context {python : Interpreter}.

(** Lines 95-96 *)
Definition save_json (data : jvalue) : M unit :=
  open_w (lit "steam_applist.json");;
  for_each (json_chunks data) (file_write (lit "steam_applist.json")).

Definition main (a : args) : M Z :=
  print Fetching;;
  fetched ← try_except
              (Some <$> fetch_applist (api_key a) 60 3 DEFAULT_BACKOFF)
              (fun ex => print (FetchFailed ex);; input PROMPT;; mret None);
  match fetched with
  | None => mret 2
  | Some data =>
      (if json a
       then try_except (save_json data) (fun ex => print (JsonSaveFailed ex))
       else mret tt);;
      apps ← lift (py_list (extract_apps data));
      print (Fetched (length apps) (out a));;
      written ← try_except (write_csv (out a) apps;; mret true)
                  (fun ex => print (CsvFailed ex);; input PROMPT;; mret false);
      if written : bool then
        print Done;;
        try_except (input PROMPT;; mret tt) (fun _ => mret tt);;
        mret 0
      else mret 3
  end.

(** [raise SystemExit(main())]: the status the process ends with; an
    exception that leaves [main] ends it with status 1. *)
Definition exit_status (a : args) (w : World) : Z :=
  match fst (main a w) with
  | Ok code => code
  | Raise _ => 1
  end.

End Main.

(** ** Concrete instances for running the program on examples *)

(** [int(s)] on the plain decimal literals: an optional sign, then ASCII
    digits. The examples use no other string that [int] accepts. *)
Fixpoint decimal_value (acc : Z) (s : pystr) : option Z :=
  match s with
  | [] => Some acc
  | c :: r =>
      if ((48 <=? c) && (c <=? 57))%N
      then decimal_value (10 * acc + (Z.of_N c - 48)) r
      else None
  end.

Definition plain_int (s : pystr) : option Z :=
  match s with
  | [] => None
  | 45%N :: (_ :: _) as r => Z.opp <$> decimal_value 0 r
  | 43%N :: (_ :: _) as r => decimal_value 0 r
  | 45%N :: [] | 43%N :: [] => None
  | _ => decimal_value 0 s
  end.

(** The examples contain no float, list or dict in the place of a name and
    dump no JSON text that matters: empty texts stand in for them. *)
Definition plain_python : Interpreter := {|
  int_of_str := plain_int;
  py_repr := fun _ => Ok [];
  json_chunks := fun _ => [];
|}.

(** A world with a given server and console, an empty disk, no delay the
    system refuses and no path that refuses to open. *)
Definition world_of (net : nat -> request -> response) (lines : list pystr)
  : World :=
  MkWorld net [] (fun _ => None) [] [] lines ∅ (fun _ => None).

(** A JSON object from its members. *)
Definition obj (members : list (string * jvalue)) : jvalue :=
  JObj (list_to_map (map (fun kv => (lit (fst kv), snd kv)) members)).

(** The response of the end-to-end scenario of the specification, and its
    three entries. *)
Definition scenario_entries : list jvalue := [
  obj [("appid"%string, JInt 10); ("name"%string, JStr (lit "Half-Life"))];
  obj [("appid"%string, JStr (lit "bad")); ("name"%string, JStr (lit "X"))];
  obj [("AppID"%string, JInt 20); ("Name"%string, JStr (lit " Portal "))]].

Definition scenario : jvalue :=
  obj [("applist"%string, obj [("apps"%string, JList scenario_entries)])].

(** A server that cannot be reached, one that answers the third request
    only, and one that always answers. *)
Definition server_down : nat -> request -> response :=
  fun _ _ => Failed (NetworkError 0).

Definition server_flaky : nat -> request -> response :=
  fun n _ => if (n <? 2)%nat then Response 503 None
             else Response 200 (Some scenario).

Definition server_up : nat -> request -> response :=
  fun _ _ => Response 200 (Some scenario).

(** A world in which [refused] cannot be opened for writing. *)
Definition world_refusing (refused : pystr) (net : nat -> request -> response)
    (lines : list pystr) : World :=
  MkWorld net [] (fun _ => None) [] [] lines ∅
          (fun p => if bool_decide (p = refused) then Some (OSError 13) else None).

Definition default_args : args := Args DEFAULT_API_KEY (lit "steam_apps.csv") false.
Definition json_args : args := Args DEFAULT_API_KEY (lit "steam_apps.csv") true.

(** ** Words of the specification, to compare the code with *)

Definition is_mapping (v : jvalue) : bool :=
  match v with JObj _ => true | _ => false end.

Definition is_list (v : jvalue) : bool :=
  match v with JList _ => true | _ => false end.

(** "The applist field is absent, null, or not a mapping, or the apps
    field is absent, null, or not a list." *)
Definition container_missing_or_malformed (json_data : jvalue) : bool :=
  match json_data with
  | JObj m =>
      match m !! lit "applist" with
      | None | Some JNull => true
      | Some (JObj a) =>
          match a !! lit "apps" with
          | None | Some JNull => true
          | Some v => negb (is_list v)
          end
      | Some _ => true
      end
  | _ => false
  end.

(** The containers lines 57-58 replace by an empty one: the applist field
    is absent or false, or it is a mapping whose apps field is absent or
    false ([None], [False], zero and the empty string, list and dict are
    false). *)
Definition container_absent_or_false (json_data : jvalue) : bool :=
  match json_data with
  | JObj m =>
      let a := default JNull (m !! lit "applist") in
      negb (py_truthy a)
      || match a with
         | JObj am => negb (py_truthy (default JNull (am !! lit "apps")))
         | _ => false
         end
  | _ => false
  end.

(** "Missing every identifier key-name variant." *)
Definition missing_every_id (m : gmap pystr jvalue) : Prop :=
  m !! lit "appid" = None /\ m !! lit "AppId" = None /\ m !! lit "AppID" = None.

(** Two worlds that differ at most in what is on the diagnostic stream. *)
Definition same_but_stderr (w1 w2 : World) : Prop :=
  network w1 = network w2 /\ traffic w1 = traffic w2 /\
  sleep_error w1 = sleep_error w2 /\
  prompts w1 = prompts w2 /\ stdin w1 = stdin w2 /\ files w1 = files w2 /\
  open_error w1 = open_error w2.

(** The delay after the failed attempt [k]: the float product of the
    backoff and [k]. *)
Definition product (backoff : spec_float) (k : Z) : spec_float :=
  fmul backoff (float_of_Z k).

(** The delays of the retries after attempts [first], [first + 1], ...:
    [count] of them. *)
Definition delays (backoff : spec_float) (first count : nat) : list spec_float :=
  map (fun k => product backoff (Z.of_nat k)) (seq first count).

(** The requests and the sleeps of [count] attempts in a row, the first of
    them numbered [first + 1]: each attempt sends [rq], and between attempt
    [k] and the next comes the sleep of [product backoff k]. *)
Fixpoint retry_trace (rq : request) (backoff : spec_float) (first count : nat)
  : list event :=
  match count with
  | O => []
  | S count' =>
      Sent rq ::
      match count' with
      | O => []
      | S _ => Slept (product backoff (Z.of_nat (S first)))
               :: retry_trace rq backoff (S first) count'
      end
  end.

(** Is the delay accepted by the interpreter and by the system? *)
Definition sleep_accepts (w : World) (d : spec_float) : bool :=
  match sleep_refusal d, sleep_error w d with
  | None, None => true
  | _, _ => false
  end.

(** Can the delay after the failed attempt [k] be computed and slept? *)
Definition delay_accepted (w : World) (backoff : spec_float) (k : Z) : bool :=
  match retry_delay backoff k with
  | Ok d => sleep_accepts w d
  | Raise _ => false
  end.

(** The order of the numbers that floats stand for. *)
Definition float_lt (a b : spec_float) : Prop :=
  (float_value a < float_value b)%Q.

(** Every identifier can be turned into digits. *)
Definition ids_printable (apps : list (Z * pystr)) : bool :=
  forallb (fun p => within_str_digits (fst p)) apps.

(** The text of a CSV file with the header and the rows of [apps]. *)
Definition csv_text (apps : list (Z * pystr)) : pystr :=
  csv_row header_row ++ concat (map (fun p => csv_row (data_row p)) apps).

(** What [main] returns once a failure has been reported and the prompt
    [input(...)] of lines 90 and 107 has run: the prompt is not guarded, so
    with no line on standard input its [EOFError] leaves [main]. *)
Definition after_prompt (w : World) (code : Z) : result Z :=
  match stdin w with
  | [] => Raise EOFError
  | _ :: _ => Ok code
  end.

(** Every name can be written in UTF-8. *)
Definition names_encodable (apps : list (Z * pystr)) : bool :=
  forallb (fun p => forallb encodable (snd p)) apps.

(** A text that neither starts nor ends with white space. *)
Definition starts_with_space (s : pystr) : bool :=
  match s with
  | c :: _ => py_isspace c
  | [] => false
  end.

Definition trimmed (s : pystr) : bool :=
  negb (starts_with_space s) && negb (starts_with_space (rev s)).

(** An entry of the usual shape for the pair [(i, s)]: a mapping whose
    [appid] key holds a true value that [int] turns into [i], and whose
    name is the non-empty string [s] under [name], or is missing under
    both [name] and [Name] with [s] empty. *)
Definition usual_entry {python : Interpreter} (e : jvalue) (p : Z * pystr)
  : Prop :=
  exists m v,
    e = JObj m
    /\ m !! lit "appid" = Some v /\ py_truthy v = true /\ py_int v = Ok (fst p)
    /\ ((m !! lit "name" = Some (JStr (snd p)) /\ snd p <> [])
        \/ (m !! lit "name" = None /\ m !! lit "Name" = None /\ snd p = [])).

(** Two worlds with the same network, traffic, sleeps, console and refused
    paths: they differ at most in the disk and the diagnostic stream. *)
Definition same_outside_disk_and_log (w w' : World) : Prop :=
  network w' = network w /\ traffic w' = traffic w /\
  sleep_error w' = sleep_error w /\
  prompts w' = prompts w /\ stdin w' = stdin w /\
  open_error w' = open_error w.

(** Does the extraction raise on what the fetch has returned? *)
Definition extraction_raises {python : Interpreter} (fetched : result jvalue)
  : bool :=
  match fetched with
  | Ok data =>
      match py_list (extract_apps data) with
      | Raise _ => true
      | Ok _ => false
      end
  | Raise _ => false
  end.

(** A server whose answer is valid JSON but not an object, one that
    answers "created" with the scenario as body, and one that sends the
    scenario along with the status "not modified". *)
Definition server_array : nat -> request -> response :=
  fun _ _ => Response 200 (Some (JList [])).

Definition server_created : nat -> request -> response :=
  fun _ _ => Response 201 (Some scenario).

Definition server_not_modified : nat -> request -> response :=
  fun _ _ => Response 304 (Some scenario).

(** Two entries of the usual shape, the second with its identifier as a
    string and no name, and a response that holds them; the same with a
    number between them. *)
Definition entry_half_life : jvalue :=
  obj [("appid"%string, JInt 10); ("name"%string, JStr (lit "Half-Life"))].

Definition entry_nameless : jvalue := obj [("appid"%string, JStr (lit "20"))].

Definition response_of (entries : list jvalue) : jvalue :=
  obj [("applist"%string, obj [("apps"%string, JList entries)])].

(** * Properties *)

(** ** The extractor *)

Section ExtractorFacts.

Context {python : Interpreter}.

Lemma name_of_mapping m : exists name, name_of (JObj m) = Ok name.
Proof.
  unfold name_of; simpl.
  destruct (py_truthy (default JNull (m !! lit "name"))); eauto.
Qed.

Lemma appid_of_mapping m : exists appid, appid_of (JObj m) = Ok appid.
Proof.
  unfold appid_of; simpl.
  destruct (py_truthy (default JNull (m !! lit "appid"))); eauto.
  destruct (py_truthy (default JNull (m !! lit "AppId"))); eauto.
Qed.

(** A mapping never stops the loop. *)
Lemma entry_turn_mapping m :
  entry_turn (JObj m) = Skip \/ exists p, entry_turn (JObj m) = Yield p.
Proof.
  unfold entry_turn.
  destruct (appid_of_mapping m) as [a ->].
  destruct (name_of_mapping m) as [n ->].
  destruct (py_int a); [|eauto]. destruct (py_str n); eauto.
Qed.

(** An entry that is not a mapping stops it at the first lookup. *)
Lemma entry_turn_not_mapping e :
  is_mapping e = false -> entry_turn e = Crash AttributeError.
Proof. destruct e; simpl; intros; congruence || reflexivity. Qed.

(** What has been yielded comes from entries picked in order. *)
Lemma extract_loop_picks entries :
  exists picked,
    sublist picked entries /\
    Forall2 (fun e p => entry_turn e = Yield p) picked
            (yielded (extract_loop entries)).
Proof.
  induction entries as [|e rest [picked [Hsub Hall]]]; simpl.
  - exists []. split; constructor.
  - destruct (entry_turn e) eqn:He; simpl.
    + exists (e :: picked). split; [by constructor | by constructor].
    + exists picked. split; [by constructor | done].
    + exists []. split; [apply sublist_nil_l | constructor].
Qed.

Lemma extract_loop_length entries :
  (length (yielded (extract_loop entries)) <= length entries)%nat.
Proof.
  destruct (extract_loop_picks entries) as [picked [Hsub Hall]].
  rewrite <- (Forall2_length _ _ _ Hall). by apply sublist_length.
Qed.

(** Over mappings the loop runs to its end and yields the pair of each
    entry that has one. *)
Lemma extract_loop_mappings entries :
  forallb is_mapping entries = true ->
  extract_loop entries = Gen (omap pair_of entries) None.
Proof.
  induction entries as [|e rest IH]; simpl; [done|].
  intros [He Hrest]%andb_prop. specialize (IH Hrest).
  destruct e; try discriminate. unfold pair_of.
  destruct (entry_turn_mapping m) as [-> | [p ->]]; rewrite IH; reflexivity.
Qed.


(** An entry whose identifier, as line 61 finds it, converts to an
    integer gives exactly the pair of that integer and the trimmed name. *)
Lemma entry_turn_valid e appid name i s :
  appid_of e = Ok appid -> name_of e = Ok name -> py_int appid = Ok i ->
  py_str name = Ok s ->
  entry_turn e = Yield (i, strip s).
Proof.
  unfold entry_turn. by intros -> -> -> ->.
Qed.

(** The name of a mapping is looked up under [name], then under [Name],
    and is the empty string when neither holds a true value. *)
Lemma name_of_priority m :
  name_of (JObj m) =
  Ok (match m !! lit "name" with
      | Some n => if py_truthy n then n else
                  py_or (default JNull (m !! lit "Name")) (JStr [])
      | None => py_or (default JNull (m !! lit "Name")) (JStr [])
      end).
Proof.
  unfold name_of; simpl. destruct (m !! lit "name") as [n|]; simpl; [|done].
  by destruct (py_truthy n).
Qed.

(** C1. An entry with an integer identifier should give exactly one pair,
    whichever variant of the key holds it. The entry [{"appid": 0,
    "name": "x"}] gives none: the value under [appid] is false, the [or]
    chain goes on to the other two keys, ends with [None], and the
    conversion of [None] fails inside the [try]. The same identifier under
    the last key, [{"AppID": 0, "name": "x"}], gives the pair [(0, "x")]. *)
Theorem extract_apps_drops_zero_appid :
  extract_apps
    (obj [("applist"%string, obj [("apps"%string, JList [
       obj [("appid"%string, JInt 0); ("name"%string, JStr (lit "x"))]])])])
  = Gen [] None
  /\
  extract_apps
    (obj [("applist"%string, obj [("apps"%string, JList [
       obj [("AppID"%string, JInt 0); ("name"%string, JStr (lit "x"))]])])])
  = Gen [(0, lit "x")] None.
Proof. split; vm_compute; reflexivity. Qed.

(** C2, as amended. When the applist field of the response is absent or
    false, or is a mapping whose apps field is absent or false,
    [extract_apps] yields nothing and does not raise. *)
Theorem extract_apps_container_absent json_data :
  container_absent_or_false json_data = true ->
  extract_apps json_data = Gen [] None.
Proof.
  destruct json_data as [| | | | | |m]; try discriminate.
  unfold container_absent_or_false, extract_apps, raw_entries.
  simpl. unfold py_or.
  destruct (py_truthy (default JNull (m !! lit "applist"))) eqn:Ha; simpl.
  - destruct (default JNull (m !! lit "applist")) as [| | | | | |am];
      try discriminate.
    simpl. intros Hb%negb_true_iff. by rewrite Hb.
  - intros _. rewrite lookup_empty. reflexivity.
Qed.

(** A true applist value that is not a mapping makes [extract_apps] raise
    at line 58, before anything is yielded. *)
Lemma extract_apps_applist_not_mapping m a :
  m !! lit "applist" = Some a -> py_truthy a = true -> is_mapping a = false ->
  extract_apps (JObj m) = Gen [] (Some AttributeError).
Proof.
  intros Hm Ht Hn. unfold extract_apps, raw_entries; simpl.
  rewrite Hm; simpl. unfold py_or. rewrite Ht.
  destruct a; try discriminate; reflexivity.
Qed.

(** So does a true apps value that is not a list: a number is not
    iterable, and the characters of a string and the keys of a dict are
    not mappings. *)
Lemma extract_apps_apps_not_list m am b :
  m !! lit "applist" = Some (JObj am) -> py_truthy (JObj am) = true ->
  am !! lit "apps" = Some b -> py_truthy b = true -> is_list b = false ->
  yielded (extract_apps (JObj m)) = []
  /\ stopped (extract_apps (JObj m)) <> None.
Proof.
  intros Hm Ha Hb Ht Hl.
  assert (Hraw : raw_entries (JObj m) = py_iter b).
  { unfold raw_entries; simpl. rewrite Hm; simpl. unfold py_or at 2.
    rewrite Ha. simpl. rewrite Hb; simpl. unfold py_or. by rewrite Ht. }
  unfold extract_apps. rewrite Hraw.
  destruct b as [|[]| |f|s|l|m']; try discriminate; try by split.
  - destruct s as [|c s]; [discriminate|]. by split.
  - simpl in Ht. simpl. destruct (map_to_list m') as [|kv rest];
      [discriminate|]. by split.
Qed.

(** C3, as amended. For every response whose entry collection is
    [entries]: no more pairs are yielded than there are entries; a mapping
    that has none of the three identifier keys, or whose identifier does
    not convert to an integer, is skipped; and when every entry is a
    mapping the extraction does not raise and yields, in order, the pair of
    each entry that has one. *)
Theorem extract_apps_skips_malformed json_data entries :
  raw_entries json_data = Ok entries ->
  (length (yielded (extract_apps json_data)) <= length entries)%nat
  /\ (forall m, missing_every_id m -> entry_turn (JObj m) = Skip)
  /\ (forall m appid ex, appid_of (JObj m) = Ok appid ->
        py_int appid = Raise ex -> entry_turn (JObj m) = Skip)
  /\ (forallb is_mapping entries = true ->
        extract_apps json_data = Gen (omap pair_of entries) None).
Proof.
  intros Hraw. unfold extract_apps. rewrite Hraw.
  split; [apply extract_loop_length|].
  split; [|split].
  - intros m (H1 & H2 & H3). unfold entry_turn, appid_of, name_of.
    simpl. rewrite H1, H2, H3. simpl.
    by destruct (py_truthy (default JNull (m !! lit "name"))).
  - intros m appid ex Ha Hi. unfold entry_turn. rewrite Ha.
    destruct (name_of_mapping m) as [n ->]. by rewrite Hi.
  - apply extract_loop_mappings.
Qed.

End ExtractorFacts.

(** ** Floating-point numbers *)

Section FloatFacts.

(** The number of bits of a mantissa. *)
Lemma digits2_pos_bound m : Z.pos m < 2 ^ Z.pos (digits2_pos m).
Proof.
  induction m as [m IH|m IH|]; simpl digits2_pos; [| |done];
    rewrite Pos2Z.inj_succ, Z.pow_succ_r by lia; lia.
Qed.

Lemma digits2_pos_lower m : 2 ^ (Z.pos (digits2_pos m) - 1) <= Z.pos m.
Proof.
  induction m as [m IH|m IH|]; simpl digits2_pos; [| |done];
    rewrite Pos2Z.inj_succ;
    replace (Z.succ (Z.pos (digits2_pos m)) - 1)
      with (Z.succ (Z.pos (digits2_pos m) - 1)) by lia;
    rewrite Z.pow_succ_r by lia; lia.
Qed.

Lemma digits2_pos_le m d : Z.pos m < 2 ^ d -> Z.pos (digits2_pos m) <= d.
Proof.
  intros Hm. pose proof (digits2_pos_lower m) as Hl.
  destruct (Z.le_gt_cases (Z.pos (digits2_pos m)) d) as [|Hgt]; [done|].
  assert (2 ^ d <= 2 ^ (Z.pos (digits2_pos m) - 1))
    by (apply Z.pow_le_mono_r; lia).
  lia.
Qed.

Lemma digits2_pos_gt m d : 2 ^ d <= Z.pos m -> d < Z.pos (digits2_pos m).
Proof.
  intros Hm. pose proof (digits2_pos_bound m) as Hu.
  destruct (Z.lt_ge_cases d (Z.pos (digits2_pos m))) as [|Hge]; [done|].
  assert (2 ^ Z.pos (digits2_pos m) <= 2 ^ d) by (apply Z.pow_le_mono_r; lia).
  lia.
Qed.

(** Shifting right by one bit halves the mantissa, and keeps an exact
    record exact when the bit that falls off is zero. *)
Lemma shr_1_div r : 0 <= shr_m r -> shr_m (shr_1 r) = shr_m r / 2.
Proof.
  destruct r as [[|[p|p|]|p] rb sb]; simpl; intros H; try lia; try done.
  - rewrite Pos2Z.inj_xI. apply (Z.div_unique _ _ _ 1); lia.
  - rewrite Pos2Z.inj_xO. apply (Z.div_unique _ _ _ 0); lia.
Qed.

Lemma shr_1_exact r c :
  0 <= shr_m r ->
  shr_r r = false -> shr_s r = false -> shr_m r = 2 * c ->
  shr_r (shr_1 r) = false /\ shr_s (shr_1 r) = false.
Proof.
  destruct r as [[|[p|p|]|p] rb sb]; simpl; intros H0 -> -> H; try done;
    try rewrite Pos2Z.inj_xI in H; lia.
Qed.

Lemma iter_pos_shr p : forall r,
  0 <= shr_m r ->
  0 <= shr_m (SpecFloat.iter_pos shr_1 p r)
  /\ shr_m (SpecFloat.iter_pos shr_1 p r) = shr_m r / 2 ^ Z.pos p
  /\ (forall c, shr_r r = false -> shr_s r = false ->
        shr_m r = c * 2 ^ Z.pos p ->
        shr_r (SpecFloat.iter_pos shr_1 p r) = false
        /\ shr_s (SpecFloat.iter_pos shr_1 p r) = false).
Proof.
  assert (Hone : forall r, 0 <= shr_m r ->
            0 <= shr_m (shr_1 r)
            /\ shr_m (shr_1 r) = shr_m r / 2 ^ 1
            /\ (forall c, shr_r r = false -> shr_s r = false ->
                  shr_m r = c * 2 ^ 1 ->
                  shr_r (shr_1 r) = false /\ shr_s (shr_1 r) = false)).
  { intros r Hr. rewrite shr_1_div by done. change (2 ^ 1) with 2.
    split; [apply Z.div_pos; lia|]. split; [done|].
    intros c Hrb Hsb Hc. apply (shr_1_exact r c); [done | done | done | lia]. }
  assert (Hcomp : forall (f g : shr_record -> shr_record) a b,
            0 < a -> 0 < b ->
            (forall r, 0 <= shr_m r ->
               0 <= shr_m (f r) /\ shr_m (f r) = shr_m r / 2 ^ a
               /\ (forall c, shr_r r = false -> shr_s r = false ->
                     shr_m r = c * 2 ^ a ->
                     shr_r (f r) = false /\ shr_s (f r) = false)) ->
            (forall r, 0 <= shr_m r ->
               0 <= shr_m (g r) /\ shr_m (g r) = shr_m r / 2 ^ b
               /\ (forall c, shr_r r = false -> shr_s r = false ->
                     shr_m r = c * 2 ^ b ->
                     shr_r (g r) = false /\ shr_s (g r) = false)) ->
            forall r, 0 <= shr_m r ->
               0 <= shr_m (g (f r)) /\ shr_m (g (f r)) = shr_m r / 2 ^ (a + b)
               /\ (forall c, shr_r r = false -> shr_s r = false ->
                     shr_m r = c * 2 ^ (a + b) ->
                     shr_r (g (f r)) = false /\ shr_s (g (f r)) = false)).
  { intros f g a b Ha Hb Hf Hg r Hr.
    destruct (Hf r Hr) as (Hf0 & Hfm & Hfe).
    destruct (Hg (f r) Hf0) as (Hg0 & Hgm & Hge).
    assert (0 < 2 ^ a) by (apply Z.pow_pos_nonneg; lia).
    assert (0 < 2 ^ b) by (apply Z.pow_pos_nonneg; lia).
    split; [done|]. split.
    - rewrite Hgm, Hfm, Z.pow_add_r by lia. apply Z.div_div; lia.
    - intros c Hrb Hsb Hc. rewrite Z.pow_add_r in Hc by lia.
      destruct (Hfe (c * 2 ^ b)) as [Hfr Hfs]; [done | done | lia |].
      apply (Hge c); [done | done |].
      rewrite Hfm, Hc.
      replace (c * (2 ^ a * 2 ^ b)) with (c * 2 ^ b * 2 ^ a) by lia.
      apply Z.div_mul. lia. }
  induction p as [p IH|p IH|]; intros r Hr.
  - simpl SpecFloat.iter_pos.
    replace (Z.pos p~1) with (1 + Z.pos p + Z.pos p) by lia.
    apply (Hcomp (fun r => SpecFloat.iter_pos shr_1 p (shr_1 r))
             (SpecFloat.iter_pos shr_1 p) (1 + Z.pos p) (Z.pos p));
      [lia | lia | | exact IH | exact Hr].
    intros r0 Hr0.
    apply (Hcomp shr_1 (SpecFloat.iter_pos shr_1 p) 1 (Z.pos p));
      [lia | lia | exact Hone | exact IH | exact Hr0].
  - simpl SpecFloat.iter_pos.
    replace (Z.pos p~0) with (Z.pos p + Z.pos p) by lia.
    apply (Hcomp (SpecFloat.iter_pos shr_1 p) (SpecFloat.iter_pos shr_1 p)
             (Z.pos p) (Z.pos p));
      [lia | lia | exact IH | exact IH | exact Hr].
  - apply Hone. exact Hr.
Qed.

Lemma shr_spec m e n :
  0 <= m -> 0 < n ->
  exists r,
    shr (shr_record_of_loc m loc_Exact) e n = (r, e + n)
    /\ shr_m r = m / 2 ^ n
    /\ (forall c, m = c * 2 ^ n -> shr_r r = false /\ shr_s r = false).
Proof.
  intros Hm Hn. destruct n as [|p|p]; try lia. simpl shr.
  eexists. split; [reflexivity|].
  destruct (iter_pos_shr p {| shr_m := m; shr_r := false; shr_s := false |})
    as (_ & Hdiv & Hex); [done|].
  split; [exact Hdiv|]. intros c Hc. by apply (Hex c).
Qed.

Lemma shr_none r e n : n <= 0 -> shr r e n = (r, e).
Proof. intros Hn. destruct n as [|p|p]; [done | lia | done]. Qed.

Lemma round_nearest_even_bounds r :
  shr_m r <= round_nearest_even (shr_m r) (loc_of_shr_record r) <= shr_m r + 1
  /\ (shr_r r = false -> shr_s r = false ->
      round_nearest_even (shr_m r) (loc_of_shr_record r) = shr_m r).
Proof.
  destruct r as [m [|] [|]]; simpl; (split; [|done]);
    try destruct (Z.even m); lia.
Qed.

(** What the rounding of [m * 2 ^ e] gives: with [n] the number of bits it
    drops, an infinity, or a zero when nothing is left, or a float that
    stands for [v * 2 ^ (e + n)], where [v] is the quotient of [m] by
    [2 ^ n] or the next integer, and is the quotient when nothing is lost. *)
Lemma binary_round_aux_spec s (m : positive) e :
  let n := Z.max 0 (fexp prec emax (Z.pos (digits2_pos m) + e) - e) in
  binary_round_aux prec emax s (Z.pos m) e loc_Exact = S754_infinity s
  \/ (binary_round_aux prec emax s (Z.pos m) e loc_Exact = S754_zero s
      /\ Z.pos m / 2 ^ n = 0)
  \/ exists m' e',
       binary_round_aux prec emax s (Z.pos m) e loc_Exact = S754_finite s m' e'
       /\ e + n <= e'
       /\ Z.pos m / 2 ^ n <= Z.pos m' * 2 ^ (e' - (e + n)) <= Z.pos m / 2 ^ n + 1
       /\ (forall c, Z.pos m = c * 2 ^ n ->
             Z.pos m' * 2 ^ (e' - (e + n)) = Z.pos m / 2 ^ n).
Proof.
  cbv zeta. unfold binary_round_aux, shr_fexp. simpl Zdigits2.
  set (d := Z.pos (digits2_pos m)).
  set (n0 := fexp prec emax (d + e) - e).
  pose proof (digits2_pos_bound m) as Hd. fold d in Hd.
  destruct (Z.le_gt_cases n0 0) as [Hn0|Hn0].
  - (* nothing is dropped *)
    rewrite shr_none by done. simpl round_nearest_even. simpl Zdigits2.
    fold d. fold n0. rewrite shr_none by done. simpl shr_m.
    replace (Z.max 0 n0) with 0 by lia. rewrite Z.add_0_r, Z.pow_0_r, Z.div_1_r.
    destruct (e <=? emax - prec); [|by left].
    right. right. exists m, e. rewrite Z.sub_diag, Z.pow_0_r.
    split; [done|]. split; [lia|]. split; [lia|]. intros; lia.
  - replace (Z.max 0 n0) with n0 by lia.
    destruct (shr_spec (Z.pos m) e n0) as (r1 & -> & Hq & Hex); [lia | done |].
    destruct (round_nearest_even_bounds r1) as [Hm1 Hm1ex].
    set (m1 := round_nearest_even (shr_m r1) (loc_of_shr_record r1)) in *.
    rewrite Hq in Hm1.
    assert (H2n : 0 < 2 ^ n0) by (apply Z.pow_pos_nonneg; lia).
    assert (Hq0 : 0 <= Z.pos m / 2 ^ n0) by (apply Z.div_pos; lia).
    assert (He' : e + n0 = fexp prec emax (d + e)) by (subst n0; lia).
    assert (Hemin : -1074 <= e + n0).
    { rewrite He'. unfold fexp, emin, prec, emax. lia. }
    assert (Hq53 : Z.pos m / 2 ^ n0 < 2 ^ 53).
    { apply Z.div_lt_upper_bound; [done|]. rewrite <- Z.pow_add_r by lia.
      eapply Z.lt_le_trans; [exact Hd|]. apply Z.pow_le_mono_r; [lia|].
      subst n0. unfold fexp, emin, prec, emax. lia. }
    assert (Hexact : forall c, Z.pos m = c * 2 ^ n0 -> m1 = Z.pos m / 2 ^ n0).
    { intros c Hc. destruct (Hex c Hc) as [Hr Hs].
      subst m1. rewrite Hm1ex by done. exact Hq. }
    destruct m1 as [|p1|p1] eqn:Em1; [| |lia].
    + (* the mantissa vanishes *)
      simpl Zdigits2. rewrite shr_none
        by (unfold fexp, emin, prec, emax; lia).
      simpl shr_m. right. left. split; [done|]. lia.
    + destruct (Z.eq_dec (Z.pos p1) (2 ^ 53)) as [Hcarry|Hnocarry].
      * (* the mantissa has grown to [2 ^ 53]: one more bit is dropped *)
        assert (p1 = 9007199254740992%positive) as -> by lia.
        change (Zdigits2 (Z.pos 9007199254740992)) with 54.
        replace (fexp prec emax (54 + (e + n0)) - (e + n0)) with 1
          by (unfold fexp, emin, prec, emax; lia).
        simpl shr. cbv beta iota zeta. cbn [shr_m]. cbv beta iota.
        destruct (e + n0 + 1 <=? emax - prec); [|by left].
        right. right. exists 4503599627370496%positive, (e + n0 + 1).
        replace (e + n0 + 1 - (e + n0)) with 1 by lia.
        split; [done|]. split; [lia|].
        change (Z.pos 4503599627370496 * 2 ^ 1) with (Z.pos 9007199254740992).
        split; [lia|]. intros c Hc. by apply (Hexact c).
      * assert (Hp1 : Z.pos p1 < 2 ^ 53) by lia.
        apply digits2_pos_le in Hp1. simpl Zdigits2.
        rewrite shr_none by (unfold fexp, emin, prec, emax; lia).
        simpl shr_m.
        destruct (e + n0 <=? emax - prec); [|by left].
        right. right. exists p1, (e + n0).
        rewrite Z.sub_diag, Z.pow_0_r, Z.mul_1_r.
        split; [done|]. split; [lia|]. split; [lia|].
        intros c Hc. by apply (Hexact c).
Qed.

(** When no bit has to be dropped, the rounding changes nothing. *)
Lemma binary_round_aux_exact s (m : positive) e :
  fexp prec emax (Z.pos (digits2_pos m) + e) - e <= 0 ->
  binary_round_aux prec emax s (Z.pos m) e loc_Exact
  = if e <=? emax - prec then S754_finite s m e else S754_infinity s.
Proof.
  intros Hn. unfold binary_round_aux, shr_fexp. simpl Zdigits2.
  rewrite shr_none by done. simpl round_nearest_even. simpl Zdigits2.
  by rewrite shr_none by done.
Qed.

Lemma pos_iter_xO m d : Z.pos (Pos.iter xO m d) = Z.pos m * 2 ^ Z.pos d.
Proof.
  induction d as [|d IH] using Pos.peano_ind.
  - simpl Pos.iter. change (2 ^ 1) with 2. lia.
  - rewrite Pos.iter_succ, Pos2Z.inj_xO, IH, Pos2Z.inj_succ, Z.pow_succ_r by lia.
    lia.
Qed.

(** [float(k)] for an int below [2 ^ 53] is [k]: a mantissa of 53 bits
    and the exponent that makes up for it. *)
Lemma float_of_Z_small k :
  1 <= k < 2 ^ 53 ->
  exists mk ek,
    float_of_Z k = S754_finite false mk ek
    /\ -52 <= ek <= 0 /\ Z.pos mk = k * 2 ^ (- ek)
    /\ 2 ^ 52 <= Z.pos mk < 2 ^ 53.
Proof.
  intros Hk. destruct k as [|pk|pk]; try lia.
  unfold float_of_Z, binary_normalize, binary_round.
  pose proof (digits2_pos_bound pk) as Hu.
  pose proof (digits2_pos_lower pk) as Hl.
  assert (Hd : Z.pos (digits2_pos pk) <= 53) by (apply digits2_pos_le; lia).
  set (d := Z.pos (digits2_pos pk)) in *.
  replace (fexp prec emax (d + 0)) with (d - 53)
    by (unfold fexp, emin, prec, emax; lia).
  assert (Hfin : forall mz ez,
            -52 <= ez <= 0 -> Z.pos mz = Z.pos pk * 2 ^ (- ez) -> ez = d - 53 ->
            exists mk ek,
              binary_round_aux prec emax false (Z.pos mz) ez loc_Exact
              = S754_finite false mk ek
              /\ -52 <= ek <= 0 /\ Z.pos mk = Z.pos pk * 2 ^ (- ek)
              /\ 2 ^ 52 <= Z.pos mk < 2 ^ 53).
  { intros mz ez Hez Hmz Hezd.
    assert (Hbounds : 2 ^ 52 <= Z.pos mz < 2 ^ 53).
    { rewrite Hmz. replace (- ez) with (53 - d) by lia. split.
      - replace 52 with ((d - 1) + (53 - d)) by lia.
        rewrite Z.pow_add_r by lia.
        apply Z.mul_le_mono_nonneg_r; [apply Z.pow_nonneg; lia | done].
      - replace 53 with (d + (53 - d)) at 2 by lia.
        rewrite Z.pow_add_r by lia.
        apply Z.mul_lt_mono_pos_r; [apply Z.pow_pos_nonneg; lia | done]. }
    assert (Hdz : Z.pos (digits2_pos mz) = 53).
    { pose proof (digits2_pos_le mz 53 (proj2 Hbounds)).
      pose proof (digits2_pos_gt mz 52 (proj1 Hbounds)). lia. }
    rewrite binary_round_aux_exact
      by (rewrite Hdz; unfold fexp, emin, prec, emax; lia).
    replace (ez <=? emax - prec) with true
      by (symmetry; apply Z.leb_le; unfold emax, prec; lia).
    by exists mz, ez. }
  unfold shl_align. destruct (d - 53 - 0) as [|q|q] eqn:Hshift; try lia.
  - apply Hfin; [lia | | lia]. change (- 0) with 0. rewrite Z.pow_0_r. lia.
  - apply Hfin; [lia | | lia].
    rewrite pos_iter_xO. f_equal. f_equal. lia.
Qed.

(** The product of a positive binary64 number [mb * 2 ^ eb] and an int
    [k] below [2 ^ 50], when it is not an infinity: a float whose distance
    to [mb * k * 2 ^ eb] is at most a quarter of [mb * 2 ^ eb]. Both are
    measured in units of [2 ^ (eb - 52)]. *)
Lemma product_bounds mb eb k :
  valid_binary prec emax (S754_finite false mb eb) = true ->
  1 <= k < 2 ^ 50 ->
  product (S754_finite false mb eb) k = S754_infinity false
  \/ exists m e,
       product (S754_finite false mb eb) k = S754_finite false m e
       /\ eb - 52 <= e
       /\ 4 * Z.abs (Z.pos m * 2 ^ (e - (eb - 52)) - Z.pos mb * k * 2 ^ 52)
          <= Z.pos mb * 2 ^ 52.
Proof.
  intros Hvalid Hk.
  destruct (float_of_Z_small k) as (mk & ek & Hfk & Hek & Hmk & Hmk53); [lia|].
  unfold product, fmul. rewrite Hfk. simpl SFmul.
  (* the backoff: at most 53 bits, exponent not below the least one *)
  simpl in Hvalid. unfold bounded, canonical_mantissa in Hvalid.
  apply andb_true_iff in Hvalid as [Hcan _]. apply Z.eqb_eq in Hcan.
  pose proof (digits2_pos_bound mb) as Hmbu.
  pose proof (digits2_pos_lower mb) as Hmbl.
  set (dmb := Z.pos (digits2_pos mb)) in *.
  assert (Hdmb : 1 <= dmb <= 53 /\ -1074 <= eb).
  { unfold fexp, emin, prec, emax in Hcan. subst dmb. lia. }
  (* the int: at least three bits of the mantissa of [float(k)] are zero *)
  assert (Hek3 : ek <= -3).
  { destruct (Z.le_gt_cases ek (-3)) as [|Hgt]; [done|].
    assert (2 ^ (- ek) <= 2 ^ 2) by (apply Z.pow_le_mono_r; lia).
    change (2 ^ 2) with 4 in *. change (2 ^ 52) with 4503599627370496 in *.
    change (2 ^ 50) with 1125899906842624 in *. nia. }
  (* the exact product *)
  set (m := (mb * mk)%positive).
  set (e := eb + ek).
  assert (Hm : Z.pos m = Z.pos mb * k * 2 ^ (- ek)).
  { subst m. rewrite Pos2Z.inj_mul, Hmk. lia. }
  assert (H2ek : 0 < 2 ^ (- ek)) by (apply Z.pow_pos_nonneg; lia).
  pose proof (digits2_pos_bound m) as Hmu.
  pose proof (digits2_pos_lower m) as Hml.
  set (d := Z.pos (digits2_pos m)) in *.
  assert (Hd : d <= dmb + 53).
  { apply digits2_pos_le. subst m. rewrite Pos2Z.inj_mul, Z.pow_add_r by lia.
    apply Z.mul_lt_mono_nonneg; lia. }
  set (n := Z.max 0 (fexp prec emax (d + e) - e)).
  assert (Hn0 : 0 <= n) by (subst n; lia).
  assert (H2n : 0 < 2 ^ n) by (by apply Z.pow_pos_nonneg).
  assert (Hcases : n <= - ek \/ (- ek < n /\ n = d - 53)).
  { subst n e. unfold fexp, emin, prec, emax. lia. }
  assert (Hunit : 2 ^ n <= Z.pos m).
  { destruct Hcases as [Hle|[_ ->]].
    - rewrite Hm. assert (2 ^ n <= 2 ^ (- ek)) by (apply Z.pow_le_mono_r; lia).
      nia.
    - eapply Z.le_trans; [|exact Hml]. apply Z.pow_le_mono_r; lia. }
  assert (Hscale : Z.pos mb * k * 2 ^ 52 = Z.pos m * 2 ^ (ek + 52)).
  { rewrite Hm. rewrite <- !Z.mul_assoc. f_equal. f_equal.
    rewrite <- Z.pow_add_r by lia. f_equal. lia. }
  destruct (binary_round_aux_spec false m e) as [Hinf|[[_ Hzero]|Hfin]].
  - by left.
  - (* the product cannot vanish *)
    fold d n in Hzero.
    assert (1 <= Z.pos m / 2 ^ n) by (apply Z.div_le_lower_bound; lia). lia.
  - right. fold d n in Hfin.
    destruct Hfin as (m' & e' & -> & He' & Hv & Hexact).
    exists m', e'. split; [done|]. split; [subst e; lia|].
    set (v := Z.pos m' * 2 ^ (e' - (e + n))) in *.
    assert (Hsplit : Z.pos m' * 2 ^ (e' - (eb - 52)) = v * 2 ^ n * 2 ^ (ek + 52)).
    { subst v. rewrite <- !Z.mul_assoc. f_equal.
      rewrite <- !Z.pow_add_r by (subst e; lia). f_equal. subst e. lia. }
    rewrite Hsplit, Hscale, <- Z.mul_sub_distr_r.
    destruct Hcases as [Hle|[Hgt Hnd]].
    + (* nothing is lost: the product is exact *)
      set (c := Z.pos mb * k * 2 ^ (- ek - n)).
      assert (Hc : Z.pos m = c * 2 ^ n).
      { subst c. rewrite Hm. replace (- ek) with ((- ek - n) + n) at 1 by lia.
        rewrite Z.pow_add_r by lia. lia. }
      assert (Hq : Z.pos m / 2 ^ n = c) by (rewrite Hc; apply Z.div_mul; lia).
      rewrite (Hexact c Hc), Hq.
      replace (c * 2 ^ n - Z.pos m) with 0 by lia. simpl. lia.
    + (* bits are lost, fewer than the backoff has *)
      assert (Hq1 : Z.pos m / 2 ^ n * 2 ^ n <= Z.pos m)
        by (rewrite Z.mul_comm; apply Z.mul_div_le; lia).
      assert (Hq2 : Z.pos m < (Z.pos m / 2 ^ n + 1) * 2 ^ n).
      { rewrite Z.mul_comm. apply Z.mul_succ_div_gt. lia. }
      assert (Herr : Z.abs (v * 2 ^ n - Z.pos m) <= 2 ^ n) by nia.
      assert (H2e : 0 < 2 ^ (ek + 52)) by (apply Z.pow_pos_nonneg; lia).
      rewrite Z.abs_mul, (Z.abs_eq (2 ^ (ek + 52))) by lia.
      assert (Hpow : 4 * (2 ^ n * 2 ^ (ek + 52)) <= 2 ^ (dmb - 1) * 2 ^ 52).
      { change 4 with (2 ^ 2). rewrite <- !Z.pow_add_r by lia.
        apply Z.pow_le_mono_r; lia. }
      assert (0 <= Z.abs (v * 2 ^ n - Z.pos m)) by lia.
      nia.
Qed.

(** A float above zero is a finite one with the positive sign. *)
Lemma float_value_pos f :
  (0 < float_value f)%Q -> exists m e, f = S754_finite false m e.
Proof.
  destruct f as [s|s| |[|] m e]; try (intros H; by inversion H).
  - unfold float_value. destruct (0 <=? e); unfold Qlt; simpl; intros H.
    + assert (0 < 2 ^ e \/ 2 ^ e = 0).
      { destruct (Z.le_gt_cases 0 e); [left; by apply Z.pow_pos_nonneg|].
        right. by apply Z.pow_neg_r. }
      nia.
    + lia.
  - by exists m, e.
Qed.

Lemma float_value_scaled m e K :
  0 <= K -> 0 <= e + K ->
  (float_value (S754_finite false m e) * inject_Z (2 ^ K)
   == inject_Z (Z.pos m * 2 ^ (e + K)))%Q.
Proof.
  intros HK HeK. unfold float_value.
  destruct (Z.leb_spec 0 e) as [He|He].
  - rewrite <- inject_Z_mult, Z.pow_add_r, Z.mul_assoc by lia. reflexivity.
  - assert (H2 : 0 < 2 ^ (- e)) by (apply Z.pow_pos_nonneg; lia).
    unfold Qeq. simpl. rewrite Pos.mul_1_r, Z2Pos.id by done.
    rewrite Z.mul_1_r, <- Z.mul_assoc, <- Z.pow_add_r by lia.
    f_equal. f_equal. lia.
Qed.

(** Two positive floats compare as their mantissas do once brought to a
    common exponent. *)
Lemma float_lt_scaled m1 e1 m2 e2 B :
  B <= e1 -> B <= e2 ->
  Z.pos m1 * 2 ^ (e1 - B) < Z.pos m2 * 2 ^ (e2 - B) ->
  float_lt (S754_finite false m1 e1) (S754_finite false m2 e2).
Proof.
  intros H1 H2 Hlt. unfold float_lt.
  set (K := Z.abs B).
  assert (HK : 0 < 2 ^ K) by (apply Z.pow_pos_nonneg; lia).
  apply (Qmult_lt_r _ _ (inject_Z (2 ^ K)));
    [replace 0%Q with (inject_Z 0) by reflexivity; by rewrite <- Zlt_Qlt|].
  rewrite !float_value_scaled by lia. rewrite <- Zlt_Qlt.
  assert (HJ : 0 <= B + K) by lia.
  replace (e1 + K) with ((e1 - B) + (B + K)) by lia.
  replace (e2 + K) with ((e2 - B) + (B + K)) by lia.
  set (J := B + K) in *.
  rewrite (Z.pow_add_r 2 (e1 - B) J), (Z.pow_add_r 2 (e2 - B) J) by lia.
  rewrite !Z.mul_assoc.
  apply Z.mul_lt_mono_pos_r; [by apply Z.pow_pos_nonneg | done].
Qed.

(** The delays a positive backoff gives after attempts [k < k'] below
    [2 ^ 50] are apart by more than the rounding can undo. *)
Lemma product_increasing backoff k k' :
  valid_binary prec emax backoff = true -> (0 < float_value backoff)%Q ->
  1 <= k -> k < k' -> k' < 2 ^ 50 ->
  (forall s, product backoff k <> S754_infinity s) ->
  (forall s, product backoff k' <> S754_infinity s) ->
  float_lt (product backoff k) (product backoff k').
Proof.
  intros Hvalid Hpos Hk Hkk Hk' Hfin Hfin'.
  destruct (float_value_pos backoff Hpos) as (mb & eb & ->).
  destruct (product_bounds mb eb k Hvalid) as [Hinf|(m & e & Hp & He & Herr)];
    [lia | by destruct (Hfin false) |].
  destruct (product_bounds mb eb k' Hvalid)
    as [Hinf|(m' & e' & Hp' & He' & Herr')];
    [lia | by destruct (Hfin' false) |].
  rewrite Hp, Hp'. apply (float_lt_scaled _ _ _ _ (eb - 52)); [done | done |].
  assert (0 < Z.pos mb * 2 ^ 52) by lia.
  assert (Z.pos mb * 2 ^ 52 <= Z.pos mb * k' * 2 ^ 52 - Z.pos mb * k * 2 ^ 52)
    by nia.
  lia.
Qed.

End FloatFacts.

(** ** The fetcher *)

Section FetcherFacts.

Variable timeout : Z.
Variable max_attempts : Z.
Variable backoff : spec_float.

Local Abbreviation rq := (the_request timeout).
Local Abbreviation loop := (fun fuel => fetch_loop fuel timeout max_attempts backoff).

(** The result of the attempt made after [k] others, in the world [w] the
    fetcher starts in. *)
Local Abbreviation outcome w k :=
  (attempt_result (network w (Nat.add (length (sent w)) k) rq)).

(** The requests and the sleeps in the list of events. *)
Lemma sent_add_sent r w : sent (add_sent r w) = sent w ++ [r].
Proof. unfold sent, add_sent, add_event; simpl. by rewrite omap_app. Qed.

Lemma sent_add_slept d w : sent (add_slept d w) = sent w.
Proof.
  unfold sent, add_slept, add_event; simpl. rewrite omap_app; simpl.
  by rewrite app_nil_r.
Qed.

Lemma slept_add_sent r w : slept (add_sent r w) = slept w.
Proof.
  unfold slept, add_sent, add_event; simpl. rewrite omap_app; simpl.
  by rewrite app_nil_r.
Qed.

Lemma slept_add_slept d w : slept (add_slept d w) = slept w ++ [d].
Proof. unfold slept, add_slept, add_event; simpl. by rewrite omap_app. Qed.

Lemma retry_trace_more r first count :
  retry_trace r backoff first (S (S count))
  = Sent r :: Slept (product backoff (Z.of_nat (S first)))
      :: retry_trace r backoff (S first) (S count).
Proof. reflexivity. Qed.

Lemma retry_trace_requests r count : forall first,
  omap request_of (retry_trace r backoff first count) = repeat r count.
Proof.
  induction count as [|[|count] IH]; intros first; [done | done |].
  rewrite retry_trace_more. simpl omap. simpl repeat. f_equal. apply IH.
Qed.

Lemma retry_trace_delays r count : forall first,
  omap delay_of (retry_trace r backoff first count)
  = delays backoff (S first) (count - 1).
Proof.
  induction count as [|[|count] IH]; intros first; [done | done |].
  rewrite retry_trace_more.
  change (omap delay_of (Sent r :: Slept ?d :: ?t)) with (d :: omap delay_of t).
  rewrite IH. replace (S (S count) - 1)%nat with (S (S count - 1)) by lia.
  reflexivity.
Qed.

(** The body of the [try] issues one request and returns or raises
    according to the answer. *)
Lemma fetch_try_run w :
  fetch_try timeout w
  = (attempt_result (network w (length (sent w)) rq), add_sent rq w).
Proof.
  unfold fetch_try, mbind, M_bind, requests_get, the_request.
  destruct (network w _ _) as [e|st b]; simpl; [done|].
  unfold raise_for_status, resp_json, raise, mret, M_ret; simpl.
  destruct (st =? 404) eqn:E404.
  - apply Z.eqb_eq in E404; subst st; reflexivity.
  - destruct ((400 <=? st) && (st <? 600)); [done|].
    destruct (bodiless st); [done|]. destruct b as [j|]; [|done].
    by destruct (json_decodable j).
Qed.

(** One turn of the loop. *)
Lemma fetch_loop_turn fuel attempt w :
  loop (S fuel) attempt w
  = if attempt <? max_attempts then
      match attempt_result (network w (length (sent w)) rq) with
      | Ok data => (Ok data, add_sent rq w)
      | Raise ex =>
          let w1 := add_stderr (AttemptFailed (attempt + 1) ex) (add_sent rq w) in
          if max_attempts <=? attempt + 1 then (Raise ex, w1)
          else match retry_delay backoff (attempt + 1) with
               | Raise e => (Raise e, w1)
               | Ok d =>
                   match sleep_refusal d with
                   | Some e => (Raise e, w1)
                   | None =>
                       match sleep_error w d with
                       | Some e => (Raise e, w1)
                       | None => loop fuel (attempt + 1) (add_slept d w1)
                       end
                   end
               end
      end
    else (Ok JNull, w).
Proof.
  simpl. destruct (attempt <? max_attempts); [|done].
  unfold mbind, M_bind, try_except, fmap, M_fmap. rewrite fetch_try_run.
  destruct (attempt_result _) as [data|ex]; [done|]. unfold print. simpl.
  destruct (max_attempts <=? attempt + 1); [done|]. simpl. unfold lift.
  destruct (retry_delay backoff (attempt + 1)) as [d|e]; [|done].
  unfold sleep. simpl. destruct (sleep_refusal d); [done|].
  by destruct (sleep_error w d).
Qed.

(** A delay that is accepted is the float product of the backoff and the
    number of the attempt. *)
Lemma float_of_int_value z f : float_of_int z = Ok f -> f = float_of_Z z.
Proof.
  unfold float_of_int. destruct (float_of_Z z); intros H; congruence.
Qed.

Lemma delay_accepted_run w k :
  delay_accepted w backoff k = true ->
  retry_delay backoff k = Ok (product backoff k)
  /\ sleep_refusal (product backoff k) = None
  /\ sleep_error w (product backoff k) = None.
Proof.
  unfold delay_accepted, sleep_accepts, retry_delay, product.
  destruct (float_of_int k) as [f|e] eqn:Hf; simpl; [|done].
  apply float_of_int_value in Hf. subst f.
  destruct (sleep_refusal _); [done|]. by destruct (sleep_error w _).
Qed.

(** [time.sleep] refuses an infinite delay. *)
Lemma sleep_refusal_infinity s :
  sleep_refusal (S754_infinity s) = Some OverflowError.
Proof. destruct s; vm_compute; reflexivity. Qed.

Lemma delay_accepted_finite w k s :
  delay_accepted w backoff k = true -> product backoff k <> S754_infinity s.
Proof.
  intros (_ & Hsleep & _)%delay_accepted_run Hinf.
  by rewrite Hinf, sleep_refusal_infinity in Hsleep.
Qed.

(** The delays of a positive backoff increase strictly, as long as the
    attempts are fewer than [2 ^ 50] and no delay is infinite. *)
Lemma delays_increasing first count :
  valid_binary prec emax backoff = true -> (0 < float_value backoff)%Q ->
  (1 <= first)%nat -> Z.of_nat (first + count) <= 2 ^ 50 ->
  (forall k s, (first <= k < first + count)%nat ->
     product backoff (Z.of_nat k) <> S754_infinity s) ->
  StronglySorted float_lt (delays backoff first count).
Proof.
  intros Hvalid Hb. revert first.
  induction count as [|count IH]; intros first Hfirst Hmax Hfin; [constructor|].
  unfold delays in *; simpl. constructor.
  - apply IH; [lia | lia |]. intros k s Hk. apply Hfin. lia.
  - apply List.Forall_forall. intros d [k [<- Hk]]%in_map_iff.
    apply in_seq in Hk.
    apply product_increasing; try done; try lia.
    + intros s. apply Hfin. lia.
    + intros s. apply Hfin. lia.
Qed.

(** The fuel [fetch_applist] gives the loop is enough: with at least
    [max_attempts - attempt] units the loop never runs out, and more fuel
    changes nothing. *)
Lemma fetch_loop_fuel fuel1 : forall fuel2 attempt w,
  (Z.to_nat (max_attempts - attempt) <= fuel1)%nat ->
  (Z.to_nat (max_attempts - attempt) <= fuel2)%nat ->
  loop fuel1 attempt w = loop fuel2 attempt w.
Proof.
  induction fuel1 as [|fuel1 IH]; intros [|fuel2] attempt w H1 H2;
    try (simpl; destruct (Z.ltb_spec attempt max_attempts); try done; lia).
  rewrite !fetch_loop_turn.
  destruct (Z.ltb_spec attempt max_attempts); [|done].
  destruct (attempt_result _); [done|]. simpl.
  destruct (max_attempts <=? attempt + 1); [done|].
  destruct (retry_delay _ _) as [d|]; [|done].
  destruct (sleep_refusal d); [done|]. destruct (sleep_error w d); [done|].
  apply IH; lia.
Qed.

(** The loop, started before attempt number [a + 1] with attempts left,
    when every delay it may need is accepted. *)
Lemma fetch_loop_run fuel : forall (a : nat) w,
  Z.of_nat a < max_attempts ->
  (forall k, Z.of_nat a < k < max_attempts ->
     delay_accepted w backoff k = true) ->
  (Z.to_nat max_attempts - a <= fuel)%nat ->
  exists n : nat,
    (1 <= n)%nat /\ Z.of_nat (a + n) <= max_attempts
    /\ fst (loop fuel (Z.of_nat a) w) = outcome w (n - 1)%nat
    /\ (forall k, (k < n - 1)%nat -> exists e, outcome w k = Raise e)
    /\ ((exists e, fst (loop fuel (Z.of_nat a) w) = Raise e) ->
        Z.of_nat (a + n) = max_attempts)
    /\ traffic (snd (loop fuel (Z.of_nat a) w))
       = traffic w ++ retry_trace rq backoff a n.
Proof.
  induction fuel as [|fuel IH]; intros a w Ha Hok Hfuel; [lia|].
  rewrite fetch_loop_turn.
  destruct (Z.ltb_spec (Z.of_nat a) max_attempts) as [_|]; [|lia].
  destruct (attempt_result (network w (length (sent w)) rq)) as [j|e] eqn:Hout.
  - (* the attempt succeeds: its result is returned *)
    exists 1%nat. simpl. rewrite Nat.add_0_r, Hout.
    repeat split; try done; try lia. intros [e He]; discriminate.
  - simpl.
    destruct (Z.leb_spec max_attempts (Z.of_nat a + 1)) as [Hlast|Hmore].
    + (* the last attempt fails: its error is raised again *)
      exists 1%nat. simpl. rewrite Nat.add_0_r, Hout.
      repeat split; try done; lia.
    + (* an attempt fails with more to come: sleep, then go round again *)
      replace (Z.of_nat a + 1) with (Z.of_nat (S a)) by lia.
      destruct (delay_accepted_run w (Z.of_nat (S a))) as (-> & -> & ->);
        [apply Hok; lia|].
      set (w' := add_slept _ (add_stderr _ (add_sent rq w))).
      destruct (IH (S a) w') as (n & Hn & Hle & Hres & Hfail & Hall & Htr);
        [lia | intros k Hk; rewrite <- (Hok k) by lia; reflexivity | lia |].
      assert (Hshift : forall k, outcome w' k = outcome w (S k)).
      { intros k. subst w'. rewrite sent_add_slept.
        change (sent (add_stderr ?m ?v)) with (sent v).
        rewrite sent_add_sent. simpl. rewrite length_app; simpl.
        by replace (length (sent w) + 1 + k)%nat
             with (length (sent w) + S k)%nat by lia. }
      exists (S n). rewrite Hres, Htr.
      replace (S n - 1)%nat with (S (n - 1)) by lia.
      repeat split; try done; try lia.
      * intros [|k] Hk.
        -- exists e. by rewrite Nat.add_0_r.
        -- rewrite <- Hshift. apply Hfail. lia.
      * intros He. rewrite <- Hall; [lia|].
        destruct He as [e' He']. exists e'. by rewrite Hres.
      * destruct n as [|n]; [lia|]. rewrite retry_trace_more.
        subst w'; simpl. by rewrite <- !app_assoc.
Qed.

(** The fetcher, when every delay it may need is accepted. *)
Lemma fetch_applist_run api_key w :
  1 <= max_attempts ->
  (forall k, 1 <= k < max_attempts -> delay_accepted w backoff k = true) ->
  exists n : nat,
    (1 <= n)%nat /\ Z.of_nat n <= max_attempts
    /\ traffic (snd (fetch_applist api_key timeout max_attempts backoff w))
       = traffic w ++ retry_trace rq backoff 0 n
    /\ (forall k, (k < n - 1)%nat -> exists e, outcome w k = Raise e)
    /\ fst (fetch_applist api_key timeout max_attempts backoff w)
       = outcome w (n - 1)%nat
    /\ ((exists e, fst (fetch_applist api_key timeout max_attempts backoff w)
                   = Raise e) -> Z.of_nat n = max_attempts).
Proof.
  intros Hmax Hok. unfold fetch_applist, mbind, M_bind.
  set (w0 := snd ((if bool_decide (api_key = []) then mret tt
                   else print KeyIgnored) w)).
  assert (Hw0 : (if bool_decide (api_key = []) then mret tt
                 else print KeyIgnored) w = (Ok tt, w0)).
  { subst w0. by destruct (bool_decide (api_key = [])). }
  assert (Hsame : network w0 = network w /\ traffic w0 = traffic w
                  /\ sleep_error w0 = sleep_error w).
  { subst w0. by destruct (bool_decide (api_key = [])). }
  destruct Hsame as (Hnet0 & Htr0 & Hse0).
  assert (Hsent0 : sent w0 = sent w) by (unfold sent; by rewrite Htr0).
  rewrite Hw0.
  destruct (fetch_loop_run (Z.to_nat max_attempts) 0 w0)
    as (n & Hn & Hle & Hres & Hfail & Hall & Htr); [lia | | lia |].
  { intros k Hk. rewrite <- (Hok k) by lia.
    unfold delay_accepted, sleep_accepts. by rewrite Hse0. }
  change (Z.of_nat 0) with 0 in *. simpl in Hle, Hall.
  rewrite Hnet0, Hsent0 in Hres, Hfail. rewrite Htr0 in Htr.
  exists n. by repeat split.
Qed.

(** C5. With at least one attempt allowed, and when every delay the
    retries may need is accepted by [time.sleep], the fetcher makes [n]
    attempts, [1 <= n <= max_attempts]. What it does on the network and
    with the clock is, in this order: the request of attempt 1, the sleep
    of [backoff * 1], the request of attempt 2, the sleep of [backoff * 2],
    and so on up to the request of attempt [n]; the products are the
    rounded products of floats. The requests are all the same; every
    attempt before the last one made has failed; what the fetcher returns
    or raises is the result of the last attempt made, so a success ends it
    at once and a failure is raised only after attempt [max_attempts]. When
    the backoff is a positive binary64 number and [max_attempts] is at most
    [2 ^ 50], the delays increase strictly. *)
Theorem fetch_applist_retry_policy api_key w :
  1 <= max_attempts ->
  (forall k, 1 <= k < max_attempts -> delay_accepted w backoff k = true) ->
  exists n : nat,
    (1 <= n)%nat /\ Z.of_nat n <= max_attempts
    /\ traffic (snd (fetch_applist api_key timeout max_attempts backoff w))
       = traffic w ++ retry_trace rq backoff 0 n
    /\ sent (snd (fetch_applist api_key timeout max_attempts backoff w))
       = sent w ++ repeat rq n
    /\ (forall k, (k < n - 1)%nat -> exists e, outcome w k = Raise e)
    /\ fst (fetch_applist api_key timeout max_attempts backoff w)
       = outcome w (n - 1)%nat
    /\ ((exists e, fst (fetch_applist api_key timeout max_attempts backoff w)
                   = Raise e) -> Z.of_nat n = max_attempts)
    /\ slept (snd (fetch_applist api_key timeout max_attempts backoff w))
       = slept w ++ delays backoff 1 (n - 1)
    /\ ((0 < float_value backoff)%Q ->
        valid_binary prec emax backoff = true -> max_attempts <= 2 ^ 50 ->
        StronglySorted float_lt (delays backoff 1 (n - 1))).
Proof.
  intros Hmax Hok.
  destruct (fetch_applist_run api_key w Hmax Hok)
    as (n & Hn & Hle & Htr & Hfail & Hres & Hall).
  exists n. unfold sent, slept. rewrite Htr, !omap_app.
  rewrite retry_trace_requests, retry_trace_delays.
  repeat split; try done.
  intros Hb Hvalid Hbound. apply delays_increasing; [done | done | lia | lia |].
  intros k s Hk. apply (delay_accepted_finite w). apply Hok. lia.
Qed.

(** What is on the diagnostic stream has no influence on the loop. *)
Lemma fetch_loop_stderr fuel : forall attempt w1 w2,
  same_but_stderr w1 w2 ->
  fst (loop fuel attempt w1) = fst (loop fuel attempt w2)
  /\ same_but_stderr (snd (loop fuel attempt w1)) (snd (loop fuel attempt w2)).
Proof.
  induction fuel as [|fuel IH]; intros attempt w1 w2 Hw.
  - simpl. by destruct (attempt <? max_attempts).
  - rewrite !fetch_loop_turn. destruct (attempt <? max_attempts); [|done].
    destruct Hw as (Hnet & Htr & Hse & Hp & Hin & Hf & Ho).
    assert (Hsent : sent w1 = sent w2) by (unfold sent; by rewrite Htr).
    rewrite Hnet, Hsent, Hse.
    destruct (attempt_result _) as [j|e]; simpl.
    + unfold same_but_stderr; simpl. by rewrite Htr.
    + destruct (max_attempts <=? attempt + 1); simpl.
      * unfold same_but_stderr; simpl. by rewrite Htr.
      * destruct (retry_delay _ _) as [d|];
          [|unfold same_but_stderr; simpl; by rewrite Htr].
        destruct (sleep_refusal d);
          [unfold same_but_stderr; simpl; by rewrite Htr|].
        destruct (sleep_error w2 d);
          [unfold same_but_stderr; simpl; by rewrite Htr|].
        apply IH. unfold same_but_stderr; simpl. by rewrite Htr.
Qed.

(** Whatever the parameters, the loop sends nothing but [rq]. *)
Lemma fetch_loop_requests fuel : forall attempt w,
  exists n, sent (snd (loop fuel attempt w)) = sent w ++ repeat rq n.
Proof.
  induction fuel as [|fuel IH]; intros attempt w.
  - exists 0%nat. simpl. rewrite app_nil_r. by destruct (attempt <? max_attempts).
  - rewrite fetch_loop_turn.
    destruct (attempt <? max_attempts);
      [|exists 0%nat; by rewrite app_nil_r].
    assert (Hone : sent (add_stderr (AttemptFailed (attempt + 1) JSONDecodeError)
                           (add_sent rq w)) = sent w ++ repeat rq 1).
    { change (sent (add_stderr ?m ?v)) with (sent v). apply sent_add_sent. }
    destruct (attempt_result _) as [j|e]; simpl;
      [exists 1%nat; apply sent_add_sent|].
    destruct (max_attempts <=? attempt + 1); simpl; [by exists 1%nat|].
    destruct (retry_delay _ _) as [d|]; [|by exists 1%nat].
    destruct (sleep_refusal d); [by exists 1%nat|].
    destruct (sleep_error w d); [by exists 1%nat|].
    edestruct IH as [n Hn]. exists (S n). rewrite Hn.
    rewrite sent_add_slept. change (sent (add_stderr ?m ?v)) with (sent v).
    rewrite sent_add_sent. simpl. by rewrite <- app_assoc.
Qed.

(** C6. The credential has no part in what goes out: two runs of the
    fetcher that differ only in the API key return or raise the same and
    send the same requests, and every request sent is the GET of the fixed
    URL, which has no query string, with the two fixed headers. *)
Theorem fetch_applist_ignores_key key1 key2 w :
  fst (fetch_applist key1 timeout max_attempts backoff w)
  = fst (fetch_applist key2 timeout max_attempts backoff w)
  /\ sent (snd (fetch_applist key1 timeout max_attempts backoff w))
     = sent (snd (fetch_applist key2 timeout max_attempts backoff w))
  /\ (exists n, sent (snd (fetch_applist key1 timeout max_attempts backoff w))
               = sent w ++ repeat (Request DEFAULT_URL fetch_headers timeout) n)
  /\ ~ In 63%N DEFAULT_URL.
Proof.
  assert (Hstart : forall key : pystr, exists w0,
            (if bool_decide (key = []) then mret tt else print KeyIgnored) w
            = (Ok tt, w0) /\ same_but_stderr w w0).
  { intros key. destruct (bool_decide (key = []));
      eexists; (split; [reflexivity|]); by unfold same_but_stderr. }
  destruct (Hstart key1) as (w1 & E1 & S1).
  destruct (Hstart key2) as (w2 & E2 & S2).
  unfold fetch_applist, mbind, M_bind. rewrite E1, E2.
  assert (S12 : same_but_stderr w1 w2).
  { unfold same_but_stderr in *. intuition congruence. }
  destruct (fetch_loop_stderr (Z.to_nat max_attempts) 0 w1 w2 S12)
    as (Hres & Hw).
  split; [exact Hres|]. split; [unfold sent; by destruct Hw as (_ & -> & _)|].
  split.
  - destruct (fetch_loop_requests (Z.to_nat max_attempts) 0 w1) as [n Hn].
    exists n. rewrite Hn. unfold sent. by destruct S1 as (_ & <- & _).
  - vm_compute. intuition discriminate.
Qed.

(** The loop leaves the server, the console and the disk as they are. *)
Lemma fetch_loop_keeps fuel : forall attempt w,
  network (snd (loop fuel attempt w)) = network w
  /\ sleep_error (snd (loop fuel attempt w)) = sleep_error w
  /\ prompts (snd (loop fuel attempt w)) = prompts w
  /\ stdin (snd (loop fuel attempt w)) = stdin w
  /\ files (snd (loop fuel attempt w)) = files w
  /\ open_error (snd (loop fuel attempt w)) = open_error w.
Proof.
  induction fuel as [|fuel IH]; intros attempt w.
  - simpl. by destruct (attempt <? max_attempts).
  - rewrite fetch_loop_turn. destruct (attempt <? max_attempts); [|done].
    destruct (attempt_result _) as [j|e]; simpl; [done|].
    destruct (max_attempts <=? attempt + 1); simpl; [done|].
    destruct (retry_delay _ _) as [d|]; [|done].
    destruct (sleep_refusal d); [done|]. destruct (sleep_error w d); [done|].
    edestruct IH as (H1 & H2 & H3 & H4 & H5 & H6).
    rewrite H1, H2, H3, H4, H5, H6. done.
Qed.

(** The fetcher leaves the console and the disk alone. *)
Lemma fetch_applist_frame api_key w :
  stdin (snd (fetch_applist api_key timeout max_attempts backoff w)) = stdin w
  /\ open_error (snd (fetch_applist api_key timeout max_attempts backoff w))
     = open_error w
  /\ prompts (snd (fetch_applist api_key timeout max_attempts backoff w))
     = prompts w
  /\ files (snd (fetch_applist api_key timeout max_attempts backoff w))
     = files w.
Proof.
  unfold fetch_applist, mbind, M_bind.
  set (w0 := snd ((if bool_decide (api_key = []) then mret tt
                   else print KeyIgnored) w)).
  assert (Hw0 : (if bool_decide (api_key = []) then mret tt
                 else print KeyIgnored) w = (Ok tt, w0)).
  { subst w0. by destruct (bool_decide (api_key = [])). }
  assert (Hsame : stdin w0 = stdin w /\ open_error w0 = open_error w
                  /\ prompts w0 = prompts w /\ files w0 = files w).
  { subst w0. by destruct (bool_decide (api_key = [])). }
  destruct Hsame as (H1 & H2 & H3 & H4). rewrite Hw0.
  destruct (fetch_loop_keeps (Z.to_nat max_attempts) 0 w0)
    as (_ & _ & Hp & Hin & Hf & Ho).
  rewrite Hp, Hin, Hf, Ho. by repeat split.
Qed.

(** What the decoder returns is a value it can build. *)
Lemma attempt_result_decodable r data :
  attempt_result r = Ok data -> json_decodable data = true.
Proof.
  destruct r as [e|st [j|]]; simpl; [done| |].
  - destruct ((400 <=? st) && (st <? 600)); [done|].
    destruct (bodiless st); [done|].
    destruct (json_decodable j) eqn:Hj; [|done]. by intros [= <-].
  - destruct ((400 <=? st) && (st <? 600)); [done|]. by destruct (bodiless st).
Qed.

Lemma fetch_loop_decodable fuel : forall attempt w data,
  fst (loop fuel attempt w) = Ok data -> json_decodable data = true.
Proof.
  induction fuel as [|fuel IH]; intros attempt w data.
  - simpl. destruct (attempt <? max_attempts); by intros [= <-].
  - rewrite fetch_loop_turn. destruct (attempt <? max_attempts);
      [|by intros [= <-]].
    destruct (attempt_result _) as [j|e] eqn:Hout; simpl.
    + intros [= <-]. by apply attempt_result_decodable in Hout.
    + destruct (max_attempts <=? attempt + 1); simpl; [done|].
      destruct (retry_delay _ _) as [d|]; [|done].
      destruct (sleep_refusal d); [done|]. destruct (sleep_error w d); [done|].
      apply IH.
Qed.

Lemma fetch_applist_decodable api_key w data :
  fst (fetch_applist api_key timeout max_attempts backoff w) = Ok data ->
  json_decodable data = true.
Proof.
  unfold fetch_applist, mbind, M_bind.
  destruct (bool_decide (api_key = [])); simpl; apply fetch_loop_decodable.
Qed.

End FetcherFacts.

(** ** The CSV text *)

Section CsvFacts.

Local Abbreviation R0 := (Reader START_RECORD [] []).

Lemma special_false c :
  csv_special c = false ->
  (c =? COMMA)%N = false /\ (c =? QUOTE)%N = false
  /\ (c =? CR)%N = false /\ (c =? LF)%N = false.
Proof.
  unfold csv_special. intros H.
  repeat (apply orb_false_elim in H; destruct H as [H ?]). by repeat split.
Qed.

Lemma line_ends_plain c rest : csv_special c = false -> line_ends c rest = false.
Proof.
  intros (_ & _ & Hr & Hl)%special_false. unfold line_ends. by rewrite Hr, Hl.
Qed.

Lemma process_plain_in_field c fld flds :
  csv_special c = false ->
  process_char (Reader IN_FIELD fld flds) (Some c)
  = Ok (Reader IN_FIELD (c :: fld) flds).
Proof.
  intros (Hc & _ & Hr & Hl)%special_false.
  unfold process_char, is_newline; cbn [state]. by rewrite Hr, Hl, Hc.
Qed.

Lemma process_plain_start st flds c :
  st = START_RECORD \/ st = START_FIELD ->
  csv_special c = false ->
  process_char (Reader st [] flds) (Some c) = Ok (Reader IN_FIELD [c] flds).
Proof.
  intros Hst (Hc & Hq & Hr & Hl)%special_false.
  destruct Hst as [-> | ->];
    unfold process_char, is_newline; cbn [state]; by rewrite Hr, Hl, Hq, Hc.
Qed.

(** One character that does not end a line. *)
Lemma read_text_step c rest ol r r1 rows :
  process_char r (Some c) = Ok r1 -> line_ends c rest = false ->
  read_text (c :: rest) ol r rows = read_text rest true r1 rows.
Proof.
  intros H1 H2. cbn [read_text]. rewrite H1. cbn [mbind result_bind].
  by rewrite H2.
Qed.

(** One character inside a quoted field, whether a line ends there or
    not. *)
Lemma read_text_step_quoted c rest ol fld flds rows :
  c <> QUOTE ->
  exists ol',
    read_text (c :: rest) ol (Reader IN_QUOTED_FIELD fld flds) rows
    = read_text rest ol' (Reader IN_QUOTED_FIELD (c :: fld) flds) rows.
Proof.
  intros Hq%N.eqb_neq. cbn [read_text].
  unfold process_char at 1; cbn [state]. rewrite Hq.
  cbn [mbind result_bind]. destruct (line_ends c rest).
  - by exists false.
  - by exists true.
Qed.

(** Characters of an unquoted field go to the field one by one. *)
Lemma read_plain s : forall rest ol fld flds rows,
  existsb csv_special s = false ->
  exists ol',
    read_text (s ++ rest) ol (Reader IN_FIELD fld flds) rows
    = read_text rest ol' (Reader IN_FIELD (rev s ++ fld) flds) rows.
Proof.
  induction s as [|c s IH]; intros rest ol fld flds rows Hs; [by exists ol|].
  simpl in Hs. apply orb_false_elim in Hs as [Hc Hs].
  destruct (IH rest true (c :: fld) flds rows Hs) as [ol' Hol'].
  exists ol'. cbn [app].
  rewrite (read_text_step c _ ol _ (Reader IN_FIELD (c :: fld) flds));
    [| by apply process_plain_in_field | by apply line_ends_plain].
  rewrite Hol'. simpl. by rewrite <- app_assoc.
Qed.

(** The body of a quoted field: doubled quotes give one quote, and the
    ends of lines inside it are characters like the others. *)
Lemma read_quoted s : forall rest ol fld flds rows,
  exists ol',
    read_text (csv_escape s ++ QUOTE :: rest) ol
              (Reader IN_QUOTED_FIELD fld flds) rows
    = read_text (QUOTE :: rest) ol'
                (Reader IN_QUOTED_FIELD (rev s ++ fld) flds) rows.
Proof.
  induction s as [|c s IH]; intros rest ol fld flds rows; [by exists ol|].
  cbn [csv_escape]. destruct (N.eqb_spec c QUOTE) as [->|Hne].
  - destruct (IH rest true (QUOTE :: fld) flds rows) as [ol' Hol'].
    exists ol'. cbn [app].
    rewrite (read_text_step QUOTE _ ol _
               (Reader QUOTE_IN_QUOTED_FIELD fld flds)) by reflexivity.
    rewrite (read_text_step QUOTE _ true _
               (Reader IN_QUOTED_FIELD (QUOTE :: fld) flds)) by reflexivity.
    rewrite Hol'. simpl. by rewrite <- app_assoc.
  - cbn [app].
    destruct (read_text_step_quoted c (csv_escape s ++ QUOTE :: rest) ol
                fld flds rows Hne) as [ol1 ->].
    destruct (IH rest ol1 (c :: fld) flds rows) as [ol' Hol'].
    exists ol'. rewrite Hol'. simpl. by rewrite <- app_assoc.
Qed.

(** The end of a row closes the field being read and the record. *)
Lemma read_row_end st rest ol fld flds rows :
  st = IN_FIELD \/ st = START_FIELD \/ st = QUOTE_IN_QUOTED_FIELD ->
  read_text (CR :: LF :: rest) ol (Reader st fld flds) rows
  = read_text rest false R0 (rev (rev fld :: flds) :: rows).
Proof. intros [-> | [-> | ->]]; reflexivity. Qed.

(** The last field of a row, quoted or not, and the end of the row. *)
Lemma read_last_field f rest ol flds rows :
  read_text (csv_field false f ++ CR :: LF :: rest) ol
            (Reader START_FIELD [] flds) rows
  = read_text rest false R0 (rev (f :: flds) :: rows).
Proof.
  unfold csv_field. rewrite orb_false_r.
  destruct (existsb csv_special f) eqn:Hsp.
  - (* quoted *)
    rewrite <- app_comm_cons, <- app_assoc. cbn [app].
    destruct (read_quoted f (CR :: LF :: rest) true [] flds rows) as [ol' Hol'].
    transitivity (read_text (csv_escape f ++ QUOTE :: CR :: LF :: rest) true
                            (Reader IN_QUOTED_FIELD [] flds) rows);
      [reflexivity|].
    rewrite Hol', app_nil_r.
    transitivity (read_text (CR :: LF :: rest) true
                    (Reader QUOTE_IN_QUOTED_FIELD (rev f) flds) rows);
      [reflexivity|].
    rewrite read_row_end by auto. by rewrite rev_involutive.
  - destruct f as [|c s].
    + cbn [app]. by rewrite read_row_end by auto.
    + simpl in Hsp. apply orb_false_elim in Hsp as [Hc Hs].
      cbn [app read_text].
      rewrite (process_plain_start START_FIELD), line_ends_plain by auto.
      cbn [mbind result_bind].
      destruct (read_plain s (CR :: LF :: rest) true [c] flds rows Hs)
        as [ol' ->].
      rewrite read_row_end by auto.
      by rewrite rev_app_distr, rev_involutive.
Qed.

(** A first field without special characters, and the comma after it. *)
Lemma read_first_field f rest ol rows :
  f <> [] -> existsb csv_special f = false ->
  exists ol',
    read_text (f ++ COMMA :: rest) ol R0 rows
    = read_text rest ol' (Reader START_FIELD [] [f]) rows.
Proof.
  destruct f as [|c s]; [done|]. intros _ Hsp.
  simpl in Hsp. apply orb_false_elim in Hsp as [Hc Hs].
  cbn [app read_text].
  rewrite (process_plain_start START_RECORD), line_ends_plain by auto.
  cbn [mbind result_bind].
  destruct (read_plain s (COMMA :: rest) true [c] [] rows Hs) as [ol' ->].
  exists true.
  rewrite (read_text_step COMMA _ ol' _
             (Reader START_FIELD [] [rev (rev s ++ [c])])) by reflexivity.
  by rewrite rev_app_distr, rev_involutive.
Qed.

(** A row of two fields, the first without special characters, is read
    back as it was written. *)
Lemma read_row f1 f2 rest ol rows :
  f1 <> [] -> existsb csv_special f1 = false ->
  read_text (csv_row [f1; f2] ++ rest) ol R0 rows
  = read_text rest false R0 ([f1; f2] :: rows).
Proof.
  intros Hne Hsp. unfold csv_row. cbn [length map csv_join].
  rewrite bool_decide_eq_false_2 by done.
  unfold csv_field at 1. rewrite Hsp. cbn [orb andb].
  rewrite <- !app_assoc. cbn [app].
  destruct (read_first_field f1 (csv_field false f2 ++ CR :: LF :: rest)
              ol rows Hne Hsp) as [ol' ->].
  by rewrite read_last_field.
Qed.

(** Rows of two fields, the first without special characters, are read
    back in their order. *)
Lemma read_rows rows : forall acc,
  Forall (fun row => exists f1 f2,
            row = [f1; f2] /\ f1 <> [] /\ existsb csv_special f1 = false) rows ->
  read_text (concat (map csv_row rows)) false R0 acc = Ok (rev acc ++ rows).
Proof.
  induction rows as [|row rows IH]; intros acc Hrows.
  - simpl. by rewrite app_nil_r.
  - apply Forall_cons in Hrows as [(f1 & f2 & -> & Hne & Hsp) Hrows].
    cbn [map concat]. rewrite read_row by done.
    rewrite IH by done. simpl. by rewrite <- app_assoc.
Qed.

(** The digits of an integer: at least one, none of them special, all of
    them written by the codec. *)
Lemma digits_of_uint_plain d :
  existsb csv_special (digits_of_uint d) = false
  /\ forallb encodable (digits_of_uint d) = true.
Proof. induction d; simpl; intuition. Qed.

Lemma str_of_int_plain z :
  str_of_int z <> [] /\ existsb csv_special (str_of_int z) = false
  /\ forallb encodable (str_of_int z) = true.
Proof.
  unfold str_of_int. destruct z as [|p|p]; simpl.
  - by repeat split.
  - destruct (digits_of_uint_plain (Pos.to_uint p)) as [H1 H2].
    repeat split; try done.
    pose proof (DecimalPos.Unsigned.to_uint_nonnil p).
    by destruct (Pos.to_uint p).
  - destruct (digits_of_uint_plain (Pos.to_uint p)) as [H1 H2].
    by repeat split.
Qed.

Lemma digits_of_uint_inj d : forall d',
  digits_of_uint d = digits_of_uint d' -> d = d'.
Proof.
  induction d; intros d' H; destruct d'; simpl in H; try discriminate;
    try reflexivity; f_equal; apply IHd; congruence.
Qed.

Lemma digits_no_minus d : head (digits_of_uint d) <> Some 45%N.
Proof. by destruct d. Qed.

(** Different integers have different texts. *)
Lemma str_of_int_inj a b : str_of_int a = str_of_int b -> a = b.
Proof.
  unfold str_of_int. intros H. apply DecimalZ.to_int_inj.
  destruct (Z.to_int a) as [da|da], (Z.to_int b) as [db|db].
  - f_equal. by apply digits_of_uint_inj.
  - exfalso. apply (digits_no_minus da). by rewrite H.
  - exfalso. apply (digits_no_minus db). by rewrite <- H.
  - f_equal. apply digits_of_uint_inj. congruence.
Qed.

Lemma data_rows_inj apps : forall apps',
  map data_row apps' = map data_row apps -> apps' = apps.
Proof.
  induction apps as [|[i n] apps IH]; intros [|[i' n'] apps'] H;
    try discriminate; [done|].
  injection H as Hi Hn Hrest. apply str_of_int_inj in Hi. simpl in *.
  subst. f_equal. by apply IH.
Qed.

Lemma csv_escape_encodable s :
  forallb encodable (csv_escape s) = forallb encodable s.
Proof.
  induction s as [|c s IH]; [done|]. simpl.
  destruct (N.eqb_spec c QUOTE) as [->|_]; simpl; by rewrite IH.
Qed.

Lemma csv_field_encodable alone s :
  forallb encodable (csv_field alone s) = forallb encodable s.
Proof.
  unfold csv_field. destruct (_ || _); [|done].
  simpl. rewrite forallb_app, csv_escape_encodable. simpl.
  by rewrite andb_true_r.
Qed.

(** A row can be written exactly when its name can. *)
Lemma data_row_encodable p :
  forallb encodable (csv_row (data_row p)) = forallb encodable (snd p).
Proof.
  unfold csv_row, data_row. cbn [length map csv_join].
  rewrite !forallb_app. cbn [forallb].
  rewrite !csv_field_encodable.
  destruct (str_of_int_plain (fst p)) as (_ & _ & ->).
  simpl. by rewrite andb_true_r.
Qed.

(** The text of a CSV file reads back as its header and its rows. *)
Lemma csv_text_read apps :
  csv_read (csv_text apps) = Ok (header_row :: map data_row apps).
Proof.
  unfold csv_read, csv_text.
  rewrite <- (map_map data_row csv_row).
  change (csv_row header_row ++ concat (map csv_row (map data_row apps)))
    with (concat (map csv_row (header_row :: map data_row apps))).
  rewrite read_rows; [done|]. constructor.
  - exists (lit "AppId"), (lit "Name"). by repeat split.
  - apply List.Forall_forall. intros row [p [<- _]]%in_map_iff.
    exists (str_of_int (fst p)), (snd p).
    destruct (str_of_int_plain (fst p)) as (Hne & Hsp & _). by repeat split.
Qed.

End CsvFacts.

(** ** The writer *)

Section WriterFacts.

Variable path : pystr.

Lemma set_files_same w : set_files (files w) w = w.
Proof. by destruct w. Qed.

Lemma file_write_then text (k : M unit) w :
  (file_write path text ;; k) w
  = if forallb encodable text
    then k (set_files (<[path := default [] (files w !! path) ++ text]> (files w)) w)
    else (Raise UnicodeEncodeError, w).
Proof.
  unfold mbind, M_bind, file_write. by destruct (forallb encodable text).
Qed.

Lemma open_w_then (k : M unit) w :
  (open_w path ;; k) w
  = match open_error w path with
    | Some e => (Raise e, w)
    | None => k (set_files (<[path := []]> (files w)) w)
    end.
Proof. unfold mbind, M_bind, open_w. by destruct (open_error w path). Qed.

(** One row: the digits of the identifier first, then the text. *)
Lemma write_row_then p (k : M unit) w :
  (write_row path p ;; k) w
  = if within_str_digits (fst p) then
      if forallb encodable (snd p)
      then k (set_files (<[path := default [] (files w !! path)
                                   ++ csv_row (data_row p)]> (files w)) w)
      else (Raise UnicodeEncodeError, w)
    else (Raise ValueError, w).
Proof.
  unfold write_row, mbind, M_bind, file_write, raise, mret, M_ret.
  destruct (within_str_digits (fst p)); [|done].
  rewrite data_row_encodable. by destruct (forallb encodable (snd p)).
Qed.

(** The loop of [write_csv] touches nothing but the disk; when the
    identifiers can be written, it writes the rows up to the first one the
    codec refuses. *)
Lemma write_rows_run apps : forall w,
  exists fs,
    snd (for_each apps (write_row path) w) = set_files fs w
    /\ (ids_printable apps = true ->
        fst (for_each apps (write_row path) w)
        = (if names_encodable apps then Ok tt else Raise UnicodeEncodeError)
        /\ (forall t, files w !! path = Some t -> names_encodable apps = true ->
            fs !! path
            = Some (t ++ concat (map (fun p => csv_row (data_row p)) apps)))).
Proof.
  induction apps as [|p apps IH]; intros w.
  - exists (files w). simpl. rewrite set_files_same.
    split; [done|]. intros _. split; [done|].
    intros t Ht _. by rewrite app_nil_r.
  - cbn [for_each ids_printable names_encodable forallb].
    rewrite write_row_then.
    destruct (within_str_digits (fst p)); cbn [andb];
      [|exists (files w); rewrite set_files_same; by split].
    destruct (forallb encodable (snd p)); cbn [andb].
    + set (w1 := set_files _ w).
      destruct (IH w1) as (fs & Hsnd & Hrun).
      exists fs. rewrite Hsnd. split; [done|]. intros Hids.
      destruct (Hrun Hids) as (Hfst & Hpath). split; [exact Hfst|].
      intros t Ht Henc. subst w1. cbn [files set_files] in Hpath.
      rewrite (Hpath (t ++ csv_row (data_row p))).
      * by rewrite <- app_assoc.
      * rewrite Ht. apply lookup_insert_eq.
      * exact Henc.
    + exists (files w). rewrite set_files_same. by repeat split.
Qed.

(** [write_csv] touches nothing but the disk; with identifiers that can be
    written, it fails when the file cannot be opened or a name cannot be
    written, and otherwise leaves the header and the rows in the file. *)
Lemma write_csv_run apps w :
  exists fs,
    snd (write_csv path apps w) = set_files fs w
    /\ (ids_printable apps = true ->
        fst (write_csv path apps w)
        = match open_error w path with
          | Some e => Raise e
          | None => if names_encodable apps then Ok tt
                    else Raise UnicodeEncodeError
          end
        /\ (open_error w path = None -> names_encodable apps = true ->
            fs !! path = Some (csv_text apps))).
Proof.
  unfold write_csv. rewrite open_w_then.
  destruct (open_error w path) as [e|] eqn:Hopen.
  - exists (files w). rewrite set_files_same. by repeat split.
  - rewrite file_write_then.
    replace (forallb encodable (csv_row header_row)) with true
      by (vm_compute; reflexivity).
    set (w1 := set_files _ (set_files _ w)).
    destruct (write_rows_run apps w1) as (fs & Hsnd & Hrun).
    exists fs. rewrite Hsnd. split; [done|]. intros Hids.
    destruct (Hrun Hids) as (Hfst & Hpath). rewrite Hfst. split; [done|].
    intros _ Henc. apply Hpath; [|done].
    subst w1. cbn [files set_files]. by rewrite !lookup_insert_eq.
Qed.

(** C7, as amended. When the file can be opened, every identifier has at
    most 4300 digits and no name holds a lone surrogate, [write_csv]
    succeeds, and reading the file back as CSV gives the header row
    [AppId,Name] followed by one row per pair, in the order of the pairs,
    each row holding the decimal text of the identifier and the name
    unchanged; these rows determine the pairs. *)
Theorem write_csv_roundtrip apps w :
  open_error w path = None ->
  ids_printable apps = true -> names_encodable apps = true ->
  fst (write_csv path apps w) = Ok tt
  /\ exists text,
       files (snd (write_csv path apps w)) !! path = Some text
       /\ csv_read text = Ok (header_row :: map data_row apps)
       /\ forall apps', map data_row apps' = map data_row apps -> apps' = apps.
Proof.
  intros Hopen Hids Henc.
  destruct (write_csv_run apps w) as (fs & Hsnd & Hrun).
  destruct (Hrun Hids) as (Hfst & Hpath).
  rewrite Hfst, Hsnd, Hopen, Henc. split; [done|].
  exists (csv_text apps). split; [by apply Hpath|].
  split; [apply csv_text_read | apply data_rows_inj].
Qed.

(** C9. Given no pairs, and a file that can be opened, [write_csv]
    succeeds and leaves in the file exactly the header row [AppId,Name]
    followed by the line terminator. *)
Theorem write_csv_empty w :
  open_error w path = None ->
  fst (write_csv path [] w) = Ok tt
  /\ files (snd (write_csv path [] w)) !! path
     = Some (lit "AppId,Name" ++ [CR; LF]).
Proof.
  intros Hopen.
  destruct (write_csv_run [] w) as (fs & Hsnd & Hrun).
  destruct (Hrun eq_refl) as (Hfst & Hpath).
  rewrite Hfst, Hsnd, Hopen. split; [done|].
  cbn [files set_files]. by rewrite Hpath.
Qed.

End WriterFacts.

(** ** From the entries to the rows *)

Section OrderFacts.

Context {python : Interpreter}.

(** C10. The pairs [extract_apps] yields come from entries of the raw
    collection picked in their order: some sublist [picked] of the entries
    gives the pairs one for one, each pair being the one its entry yields;
    and the rows of the CSV text of these pairs are the rows of the pairs
    in the same order. *)
Theorem extract_apps_preserves_order json_data entries :
  raw_entries json_data = Ok entries ->
  (exists picked,
     sublist picked entries /\
     Forall2 (fun e p => entry_turn e = Yield p) picked
             (yielded (extract_apps json_data)))
  /\ csv_read (csv_text (yielded (extract_apps json_data)))
     = Ok (header_row :: map data_row (yielded (extract_apps json_data))).
Proof.
  intros Hraw. split; [|apply csv_text_read].
  unfold extract_apps. rewrite Hraw. apply extract_loop_picks.
Qed.

End OrderFacts.

(** ** From the decoder to the rows *)

Section DecodedFacts.

Context {python : Interpreter}.

(** Every number below [2 ^ 1024] is within the limit on digits. *)
Lemma within_str_digits_small z : Z.abs z < 2 ^ 1024 -> within_str_digits z = true.
Proof.
  intros Hz. unfold within_str_digits. apply Z.ltb_lt.
  eapply Z.lt_le_trans; [exact Hz|]. apply Z.leb_le. vm_compute. reflexivity.
Qed.

(** The integer part of a binary64 number is below [2 ^ 1024]. *)
Lemma int_of_float_printable f i :
  valid_binary prec emax f = true -> int_of_float f = Ok i ->
  within_str_digits i = true.
Proof.
  destruct f as [s|s| |s m e]; simpl; try done.
  - intros _ [= <-]. by apply within_str_digits_small.
  - unfold bounded, canonical_mantissa, fexp, emin, prec, emax.
    intros [Hcan He%Z.leb_le]%andb_true_iff [= <-].
    apply Z.eqb_eq in Hcan.
    assert (Hd : Z.pos (digits2_pos m) <= 53) by lia.
    pose proof (digits2_pos_bound m) as Hm.
    assert (Hm53 : Z.pos m < 2 ^ 53).
    { eapply Z.lt_le_trans; [exact Hm|]. by apply Z.pow_le_mono_r. }
    apply within_str_digits_small.
    assert (Ha : 0 <= (if 0 <=? e then Z.pos m * 2 ^ e else Z.pos m / 2 ^ (- e))
                 < 2 ^ 1024).
    { destruct (Z.leb_spec 0 e).
      - split; [apply Z.mul_nonneg_nonneg; [lia|by apply Z.pow_nonneg]|].
        replace 1024 with (53 + 971) by lia. rewrite Z.pow_add_r by lia.
        assert (0 < 2 ^ e) by (by apply Z.pow_pos_nonneg).
        assert (2 ^ e <= 2 ^ 971) by (apply Z.pow_le_mono_r; lia).
        eapply Z.lt_le_trans;
          [apply Z.mul_lt_mono_pos_r; [lia|exact Hm53]
          |apply Z.mul_le_mono_nonneg_l; lia].
      - assert (0 < 2 ^ (- e)) by (apply Z.pow_pos_nonneg; lia).
        split; [apply Z.div_pos; lia|].
        eapply Z.le_lt_trans; [apply Z.div_le_upper_bound; [lia|]|].
        + instantiate (1 := Z.pos m). nia.
        + eapply Z.lt_le_trans; [exact Hm53|]. apply Z.pow_le_mono_r; lia. }
    destruct s; lia.
Qed.

(** What a decoded mapping holds has been decoded. *)
Lemma json_decodable_lookup m k v :
  json_decodable (JObj m) = true -> m !! k = Some v -> json_decodable v = true.
Proof.
  change (json_decodable (JObj m))
    with (map_fold (fun (_ : pystr) x acc => json_decodable x && acc) true m).
  revert k v.
  apply (map_fold_weak_ind
           (fun r m => forall k v, r = true -> m !! k = Some v ->
                                   json_decodable v = true)); clear m.
  - intros k v _ Hk. by rewrite lookup_empty in Hk.
  - intros i x m r Hi IH k v [Hx Hr]%andb_true_iff Hk.
    destruct (decide (i = k)) as [->|Hne].
    + rewrite lookup_insert_eq in Hk. by injection Hk as <-.
    + rewrite lookup_insert_ne in Hk by done. by eapply IH.
Qed.

Lemma py_get_decodable d k v :
  json_decodable d = true -> py_get d k = Ok v -> json_decodable v = true.
Proof.
  destruct d as [| | | | | |m]; try done. simpl py_get.
  intros Hd [= <-]. destruct (m !! k) as [x|] eqn:Hk; [|done].
  by eapply json_decodable_lookup.
Qed.

Lemma py_or_decodable a b :
  json_decodable a = true -> json_decodable b = true ->
  json_decodable (py_or a b) = true.
Proof. unfold py_or. by destruct (py_truthy a). Qed.

Lemma py_iter_decodable v l :
  json_decodable v = true -> py_iter v = Ok l ->
  Forall (fun e => json_decodable e = true) l.
Proof.
  destruct v as [| | | |s|l'|m]; try done; simpl py_iter; intros Hv [= <-].
  - apply List.Forall_forall. by intros e [c [<- _]]%in_map_iff.
  - apply List.Forall_forall. intros e He.
    change (forallb json_decodable l' = true) in Hv.
    by apply (proj1 (forallb_forall _ _) Hv).
  - apply List.Forall_forall. by intros e [kv [<- _]]%in_map_iff.
Qed.

Lemma raw_entries_decodable data entries :
  json_decodable data = true -> raw_entries data = Ok entries ->
  Forall (fun e => json_decodable e = true) entries.
Proof.
  intros Hd. unfold raw_entries.
  destruct (py_get data (lit "applist")) as [a|] eqn:Ha; [|done]. simpl.
  apply (py_get_decodable _ _ _ Hd) in Ha.
  destruct (py_get (py_or a (JObj ∅)) (lit "apps")) as [b|] eqn:Hb; [|done].
  simpl. apply py_get_decodable in Hb; [|by apply py_or_decodable].
  apply py_iter_decodable. by apply py_or_decodable.
Qed.

Lemma appid_of_decodable e appid :
  json_decodable e = true -> appid_of e = Ok appid ->
  json_decodable appid = true.
Proof.
  intros He. unfold appid_of.
  destruct (py_get e (lit "appid")) as [a1|] eqn:H1; [|done]. simpl.
  apply (py_get_decodable _ _ _ He) in H1.
  destruct (py_truthy a1); [by intros [= <-]|].
  destruct (py_get e (lit "AppId")) as [a2|] eqn:H2; [|done]. simpl.
  apply (py_get_decodable _ _ _ He) in H2.
  destruct (py_truthy a2); [by intros [= <-]|].
  by apply py_get_decodable.
Qed.

(** [int] of a decoded value is within the limit on digits. *)
Lemma py_int_printable v i :
  json_decodable v = true -> py_int v = Ok i -> within_str_digits i = true.
Proof.
  destruct v as [|b|z|f|s|l|m]; try done; simpl py_int.
  - intros _ [= <-]. apply within_str_digits_small. destruct b; done.
  - by intros Hz [= <-].
  - apply int_of_float_printable.
  - intros _. destruct (int_of_str s) as [z|]; [|done].
    destruct (within_str_digits z) eqn:Hz; [|done]. by intros [= <-].
Qed.

Lemma entry_turn_printable e p :
  json_decodable e = true -> entry_turn e = Yield p ->
  within_str_digits (fst p) = true.
Proof.
  intros He. unfold entry_turn.
  destruct (appid_of e) as [appid|] eqn:Ha; [|done].
  apply (appid_of_decodable _ _ He) in Ha.
  destruct (name_of e) as [name|]; [|done].
  destruct (py_int appid) as [i|] eqn:Hi; [|done].
  destruct (py_str name); [|done].
  intros [= <-]. by eapply py_int_printable.
Qed.

Lemma extract_loop_printable entries :
  Forall (fun e => json_decodable e = true) entries ->
  ids_printable (yielded (extract_loop entries)) = true.
Proof.
  induction 1 as [|e entries He _ IH]; [done|]. simpl.
  destruct (entry_turn e) as [p| |ex] eqn:Hturn; [|done|done].
  simpl. rewrite IH, andb_true_r. by eapply entry_turn_printable.
Qed.

(** The identifiers extracted from a decoded response can all be written. *)
Lemma extract_apps_printable data :
  json_decodable data = true ->
  ids_printable (yielded (extract_apps data)) = true.
Proof.
  intros Hd. unfold extract_apps.
  destruct (raw_entries data) as [entries|] eqn:Hraw; [|done].
  apply extract_loop_printable. by eapply raw_entries_decodable.
Qed.

End DecodedFacts.

(** ** The program *)

Section MainFacts.

Context {python : Interpreter}.

Lemma save_json_frame data w :
  exists w',
    try_except (save_json data) (fun ex => print (JsonSaveFailed ex)) w
    = (Ok tt, w')
    /\ stdin w' = stdin w /\ open_error w' = open_error w
    /\ prompts w' = prompts w.
Proof.
  assert (Hloop : forall chunks w0, exists r fs,
            for_each chunks (file_write (lit "steam_applist.json")) w0
            = (r, set_files fs w0)).
  { induction chunks as [|c chunks IH]; intros w0.
    - exists (Ok tt), (files w0). simpl. by rewrite set_files_same.
    - cbn [for_each]. rewrite file_write_then.
      destruct (forallb encodable c).
      + destruct (IH (set_files
                        (<[lit "steam_applist.json" :=
                             default [] (files w0 !! lit "steam_applist.json")
                             ++ c]> (files w0)) w0)) as (r & fs & ->).
        by exists r, fs.
      + exists (Raise UnicodeEncodeError), (files w0).
        by rewrite set_files_same. }
  unfold try_except, save_json. rewrite open_w_then.
  destruct (open_error w _) as [e|].
  - eexists. split; [reflexivity|]. by repeat split.
  - destruct (Hloop (json_chunks data)
                (set_files (<[lit "steam_applist.json" := []]> (files w)) w))
      as (r & fs & ->).
    destruct r as [[]|e]; eexists; (split; [reflexivity|]); by repeat split.
Qed.

Lemma bind_run {A B} (m : M A) (k : A -> M B) w :
  (m ≫= k) w
  = match m w with
    | (Ok a, w') => k a w'
    | (Raise e, w') => (Raise e, w')
    end.
Proof. reflexivity. Qed.

(** An unguarded prompt after a diagnostic line. *)
Lemma report_and_prompt {A} msg (v : A) w :
  fst ((print msg ;; input PROMPT ;; mret v) w)
  = match stdin w with [] => Raise EOFError | _ :: _ => Ok v end.
Proof.
  unfold mbind, M_bind, print, input. cbn [stdin add_stderr].
  by destruct (stdin w).
Qed.

Lemma py_list_yielded {A} (g : gen A) l : py_list g = Ok l -> l = yielded g.
Proof. unfold py_list. destruct (stopped g); [done|]. by intros [= <-]. Qed.

(** From the report of the count to the end of [main]. *)
Lemma main_write_step out apps w :
  ids_printable apps = true ->
  fst ((print (Fetched (length apps) out);;
        written ← try_except (write_csv out apps;; mret true)
                    (fun ex => print (CsvFailed ex);; input PROMPT;; mret false);
        if written : bool then
          print Done;;
          try_except (input PROMPT;; mret tt) (fun _ => mret tt);;
          mret 0
        else mret 3) w)
  = match open_error w out with
    | Some _ => after_prompt w 3
    | None => if names_encodable apps then Ok 0 else after_prompt w 3
    end.
Proof.
  intros Hids.
  rewrite bind_run. cbn [print]. rewrite bind_run. unfold try_except at 1.
  rewrite bind_run.
  destruct (write_csv_run out apps (add_stderr (Fetched (length apps) out) w))
    as (fs & Hsnd & Hrun).
  destruct (Hrun Hids) as (Hfst & _). clear Hrun.
  destruct (write_csv out apps _) as [r w1]. cbn [fst snd] in Hsnd, Hfst.
  subst w1. cbn [open_error add_stderr] in Hfst.
  assert (Hfail : forall e,
    fst (match (print (CsvFailed e);; input PROMPT;; mret false)
                 (set_files fs (add_stderr (Fetched (length apps) out) w)) with
         | (Ok written, w') =>
             (if written : bool then
                print Done;;
                try_except (input PROMPT;; mret tt) (fun _ => mret tt);;
                mret 0
              else mret 3) w'
         | (Raise e0, w') => (Raise e0, w')
         end) = after_prompt w 3).
  { intros e. unfold mbind, M_bind, print, input, after_prompt.
    cbn [stdin add_stderr set_files]. by destruct (stdin w). }
  destruct r as [[]|e].
  - assert (Hok : open_error w out = None /\ names_encodable apps = true).
    { destruct (open_error w out); [done|].
      by destruct (names_encodable apps). }
    destruct Hok as [-> ->].
    unfold mret, M_ret, mbind, M_bind, print, try_except, input.
    cbn [stdin add_stderr set_files]. by destruct (stdin w).
  - rewrite Hfail. destruct (open_error w out); [done|].
    by destruct (names_encodable apps).
Qed.

(** What [main] returns, in every world: 2 when the fetch has failed and 3
    when the CSV could not be written, provided a line is waiting at the
    prompt; 0 when all went well, with or without such a line; the
    exception of [extract_apps] when it raises. Whether the JSON dump was
    asked for, and whether it could be written, plays no part. *)
Lemma main_result a w :
  fst (main a w)
  = match fst (fetch_applist (api_key a) 60 3 DEFAULT_BACKOFF
                 (add_stderr Fetching w)) with
    | Raise ex => after_prompt w 2
    | Ok data =>
        match py_list (extract_apps data) with
        | Raise e => Raise e
        | Ok apps =>
            match open_error w (out a) with
            | Some _ => after_prompt w 3
            | None => if names_encodable apps then Ok 0 else after_prompt w 3
            end
        end
    end.
Proof.
  unfold main.
  change ((print Fetching ;; ?k) w) with (k (add_stderr Fetching w)).
  rewrite bind_run. unfold try_except at 1, fmap, M_fmap.
  destruct (fetch_applist_frame 60 3 DEFAULT_BACKOFF (api_key a)
              (add_stderr Fetching w)) as (Hin & Ho & _).
  pose proof (fetch_applist_decodable 60 3 DEFAULT_BACKOFF (api_key a)
                (add_stderr Fetching w)) as Hdec.
  destruct (fetch_applist _ _ _ _ _) as [[data|ex] w1];
    cbn [fst snd stdin open_error add_stderr] in *.
  - specialize (Hdec data eq_refl). rewrite bind_run.
    assert (Hdump : exists w2,
      (if json a
       then try_except (save_json data) (fun ex => print (JsonSaveFailed ex))
       else mret tt) w1 = (Ok tt, w2)
      /\ stdin w2 = stdin w /\ open_error w2 = open_error w).
    { destruct (json a).
      - destruct (save_json_frame data w1) as (w2 & -> & H1 & H2 & _).
        exists w2. by rewrite H1, H2.
      - by exists w1. }
    destruct Hdump as (w2 & -> & Hin2 & Ho2).
    rewrite bind_run. unfold lift at 1.
    destruct (py_list (extract_apps data)) as [apps|e] eqn:Hx; [|reflexivity].
    apply py_list_yielded in Hx. subst apps.
    rewrite main_write_step by (by apply extract_apps_printable).
    unfold after_prompt. by rewrite Hin2, Ho2.
  - unfold mbind, M_bind, print, input, after_prompt, mret, M_ret.
    cbn [stdin add_stderr]. rewrite Hin. by destruct (stdin w).
Qed.

(** X15. With a line waiting at the prompt, the process ends with 2 when
    the fetch has failed, with 3 when the CSV could not be written, and
    with 0 when both went well. *)
Corollary exit_status_with_input a w line rest :
  stdin w = line :: rest ->
  (forall ex,
     fst (fetch_applist (api_key a) 60 3 DEFAULT_BACKOFF (add_stderr Fetching w))
     = Raise ex ->
     exit_status a w = 2)
  /\ (forall data apps,
       fst (fetch_applist (api_key a) 60 3 DEFAULT_BACKOFF
              (add_stderr Fetching w)) = Ok data ->
       py_list (extract_apps data) = Ok apps ->
       exit_status a w
       = if bool_decide (open_error w (out a) = None) && names_encodable apps
         then 0 else 3).
Proof.
  intros Hin. unfold exit_status. rewrite main_result. unfold after_prompt.
  rewrite Hin. split.
  - by intros ex ->.
  - intros data apps -> ->. destruct (open_error w (out a)); [done|].
    rewrite bool_decide_eq_true_2 by done. by destruct (names_encodable apps).
Qed.

(** X14. Asking for the JSON dump, whether it can be written or not, does
    not change what [main] returns. *)
Corollary main_json_flag_irrelevant key path w :
  fst (main (Args key path true) w) = fst (main (Args key path false) w).
Proof. by rewrite !main_result. Qed.

End MainFacts.

(** ** More on the extractor *)

Section ExtractorMore.

Context {python : Interpreter}.

Lemma lstrip_no_leading_space s : starts_with_space (lstrip s) = false.
Proof.
  induction s as [|c s IH]; [done|]. simpl.
  destruct (py_isspace c) eqn:Hc; [exact IH|]. simpl. exact Hc.
Qed.

(** [lstrip] removes a prefix, [rstrip] a suffix. *)
Lemma lstrip_suffix s : exists pre, s = pre ++ lstrip s.
Proof.
  induction s as [|c s [pre IH]]; [by exists []|]. simpl.
  destruct (py_isspace c).
  - exists (c :: pre). simpl. by rewrite <- IH.
  - by exists [].
Qed.

Lemma rstrip_prefix s : exists suf, s = rstrip s ++ suf.
Proof.
  unfold rstrip. destruct (lstrip_suffix (rev s)) as [pre Hpre].
  exists (rev pre). rewrite <- rev_app_distr, <- Hpre. by rewrite rev_involutive.
Qed.

Lemma strip_trimmed s : trimmed (strip s) = true.
Proof.
  unfold trimmed, strip. apply andb_true_intro. split; apply negb_true_iff.
  - destruct (rstrip_prefix (lstrip s)) as [suf Hsuf].
    pose proof (lstrip_no_leading_space s) as Hlead.
    rewrite Hsuf in Hlead. by destruct (rstrip (lstrip s)).
  - unfold rstrip. rewrite rev_involutive. apply lstrip_no_leading_space.
Qed.

(** A text that is trimmed already is left as it is. *)
Lemma strip_of_trimmed s : trimmed s = true -> strip s = s.
Proof.
  unfold trimmed. intros [Hl Hr]%andb_prop.
  apply negb_true_iff in Hl, Hr.
  assert (Hls : forall t, starts_with_space t = false -> lstrip t = t).
  { intros [|c t]; [done|]. simpl. by intros ->. }
  unfold strip, rstrip. rewrite (Hls s Hl), (Hls (rev s) Hr).
  apply rev_involutive.
Qed.

Lemma yielded_names_trimmed json_data :
  Forall (fun p => trimmed (snd p) = true) (yielded (extract_apps json_data)).
Proof.
  unfold extract_apps. destruct (raw_entries json_data) as [entries|ex];
    [|constructor].
  induction entries as [|e rest IH]; simpl; [constructor|].
  destruct (entry_turn e) as [p| |ex] eqn:He; simpl.
  - constructor; [|exact IH].
    unfold entry_turn in He.
    destruct (appid_of e); [|discriminate].
    destruct (name_of e); [|discriminate].
    destruct (py_int _); [|discriminate].
    destruct (py_str _); [|discriminate].
    injection He as <-. apply strip_trimmed.
  - exact IH.
  - constructor.
Qed.

Lemma usual_entry_turn e p :
  usual_entry e p -> entry_turn e = Yield (fst p, strip (snd p)).
Proof.
  intros (m & v & -> & Hid & Htrue & Hint & Hname).
  unfold entry_turn, appid_of, name_of; simpl.
  rewrite Hid; simpl. rewrite Htrue, Hint.
  destruct Hname as [[Hn Hne] | (Hn & HN & Hempty)].
  - rewrite Hn; simpl. destruct (snd p) as [|c s]; [done|]. reflexivity.
  - rewrite Hn, HN; simpl. by rewrite Hempty.
Qed.

(** X1. Every name [extract_apps] yields is trimmed: it neither starts
    nor ends with a white-space character, whatever the response. *)
Theorem extract_apps_names_trimmed json_data :
  Forall (fun p => trimmed (snd p) = true) (yielded (extract_apps json_data)).
Proof. apply yielded_names_trimmed. Qed.

(** X2. What the extractor yields is in normal form: an entry of the
    usual shape that carries a pair [extract_apps] has yielded gives back
    that very pair, the name needing no further trimming. *)
Theorem extract_apps_output_is_fixed_point json_data p e :
  In p (yielded (extract_apps json_data)) ->
  usual_entry e p ->
  entry_turn e = Yield p.
Proof.
  intros Hin He. rewrite (usual_entry_turn e p He).
  pose proof (yielded_names_trimmed json_data) as Hall.
  rewrite List.Forall_forall in Hall.
  rewrite (strip_of_trimmed (snd p) (Hall p Hin)). by destruct p.
Qed.

(** X3. When every entry of the collection has the usual shape, nothing is
    dropped and nothing raises: [extract_apps] yields exactly one pair per
    entry, in the order of the entries, with the identifier converted and
    the name trimmed. *)
Theorem extract_apps_usual_entries json_data entries pairs :
  raw_entries json_data = Ok entries ->
  Forall2 usual_entry entries pairs ->
  extract_apps json_data
  = Gen (map (fun p => (fst p, strip (snd p))) pairs) None.
Proof.
  intros Hraw Hall. unfold extract_apps. rewrite Hraw. clear Hraw.
  induction Hall as [|e p entries pairs He _ IH]; [done|].
  simpl. rewrite (usual_entry_turn e p He), IH. reflexivity.
Qed.

(** X4. The extraction stops at the first entry that is not a mapping:
    the pairs of the mappings before it have been yielded, the entries
    after it are never looked at, and [AttributeError] is raised. *)
Theorem extract_apps_stops_at_non_mapping json_data before bad after :
  raw_entries json_data = Ok (before ++ bad :: after) ->
  forallb is_mapping before = true -> is_mapping bad = false ->
  extract_apps json_data = Gen (omap pair_of before) (Some AttributeError).
Proof.
  intros Hraw Hbefore Hbad. unfold extract_apps. rewrite Hraw. clear Hraw.
  induction before as [|e before IH]; simpl.
  - by rewrite (entry_turn_not_mapping bad Hbad).
  - simpl in Hbefore. apply andb_prop in Hbefore as [He Hrest].
    specialize (IH Hrest). destruct e; try discriminate. unfold pair_of.
    destruct (entry_turn_mapping m) as [-> | [p ->]]; rewrite IH; reflexivity.
Qed.

End ExtractorMore.

(** ** More on the fetcher *)

Section FetcherMore.

Variable timeout : Z.
Variable max_attempts : Z.
Variable backoff : spec_float.

Local Abbreviation rq := (the_request timeout).
Local Abbreviation loop := (fun fuel => fetch_loop fuel timeout max_attempts backoff).
Local Abbreviation outcome w k :=
  (attempt_result (network w (Nat.add (length (sent w)) k) rq)).

(** The note about the key changes the diagnostic stream only. *)
Lemma key_note_run (api_key : pystr) w :
  (if bool_decide (api_key = []) then mret tt else print KeyIgnored) w
  = (Ok tt, if bool_decide (api_key = []) then w else add_stderr KeyIgnored w).
Proof. by destruct (bool_decide (api_key = [])). Qed.

(** X5. With no attempt allowed ([max_attempts <= 0]) the fetcher sends
    nothing and raises nothing: it returns [None], having at most printed
    the note about the key. *)
Theorem fetch_applist_no_attempts api_key w :
  max_attempts <= 0 ->
  fetch_applist api_key timeout max_attempts backoff w
  = (Ok JNull, if bool_decide (api_key = []) then w
               else add_stderr KeyIgnored w).
Proof.
  intros Hmax. unfold fetch_applist, mbind, M_bind. rewrite key_note_run.
  replace (Z.to_nat max_attempts) with 0%nat by lia. simpl.
  by destruct (0 <? max_attempts).
Qed.

(** X6. When the first response [requests.get] returns has a status from
    200 to 399 or from 600 to 999, other than the two that carry no body,
    and a body that is JSON the decoder accepts, the fetch ends at once:
    the body is returned after one request and no sleep. Only client and
    server error statuses raise. *)
Theorem fetch_applist_accepts_non_error_status api_key w st data :
  1 <= max_attempts ->
  network w (length (sent w)) rq = Response st (Some data) ->
  200 <= st < 400 \/ 600 <= st < 1000 -> st <> 204 -> st <> 304 ->
  json_decodable data = true ->
  fst (fetch_applist api_key timeout max_attempts backoff w) = Ok data
  /\ traffic (snd (fetch_applist api_key timeout max_attempts backoff w))
     = traffic w ++ [Sent rq].
Proof.
  intros Hmax Hnet Hst H204 H304 Hdata. unfold fetch_applist, mbind, M_bind.
  rewrite key_note_run.
  set (w0 := if bool_decide (api_key = []) then w else add_stderr KeyIgnored w).
  assert (Hw0 : network w0 = network w /\ traffic w0 = traffic w).
  { subst w0. by destruct (bool_decide (api_key = [])). }
  destruct Hw0 as (Hn0 & Ht0).
  assert (Hs0 : sent w0 = sent w) by (unfold sent; by rewrite Ht0).
  destruct (Z.to_nat max_attempts) as [|fuel] eqn:Hfuel; [lia|].
  rewrite fetch_loop_turn. destruct (Z.ltb_spec 0 max_attempts); [|lia].
  rewrite Hn0, Hs0, Hnet. simpl attempt_result.
  replace ((400 <=? st) && (st <? 600)) with false
    by (symmetry; apply andb_false_iff;
        destruct Hst; [left; apply Z.leb_gt|right; apply Z.ltb_ge]; lia).
  replace (bodiless st) with false.
  - rewrite Hdata. simpl. by rewrite Ht0.
  - symmetry. unfold bodiless.
    apply orb_false_iff. split; [apply orb_false_iff; split|].
    + apply andb_false_iff. right. apply Z.ltb_ge. lia.
    + by apply Z.eqb_neq.
    + by apply Z.eqb_neq.
Qed.

(** X7. A negative backoff breaks the retry. When the first attempt fails
    and another is allowed, and the delay [backoff * 1] is a negative
    number of nanoseconds that a 64-bit integer holds, [time.sleep]
    refuses it: the fetcher raises [ValueError] after a single request and
    no sleep, the error of the attempt being lost. *)
Theorem fetch_applist_negative_backoff api_key w e ns :
  2 <= max_attempts ->
  nanoseconds (product backoff 1) = Some ns -> - 2 ^ 63 <= ns < 0 ->
  attempt_result (network w (length (sent w)) rq) = Raise e ->
  fst (fetch_applist api_key timeout max_attempts backoff w) = Raise ValueError
  /\ traffic (snd (fetch_applist api_key timeout max_attempts backoff w))
     = traffic w ++ [Sent rq].
Proof.
  intros Hmax Hns Hrange Hout. unfold fetch_applist, mbind, M_bind.
  rewrite key_note_run.
  set (w0 := if bool_decide (api_key = []) then w else add_stderr KeyIgnored w).
  assert (Hw0 : network w0 = network w /\ traffic w0 = traffic w).
  { subst w0. by destruct (bool_decide (api_key = [])). }
  destruct Hw0 as (Hn0 & Ht0).
  assert (Hs0 : sent w0 = sent w) by (unfold sent; by rewrite Ht0).
  assert (Hrefuse : sleep_refusal (product backoff 1) = Some ValueError).
  { unfold sleep_refusal. rewrite Hns.
    replace ((ns <? - 2 ^ 63) || (2 ^ 63 <? ns)) with false
      by (symmetry; apply orb_false_iff; split; apply Z.ltb_ge; lia).
    replace (ns <? 0) with true by (symmetry; apply Z.ltb_lt; lia).
    by destruct (product backoff 1). }
  destruct (Z.to_nat max_attempts) as [|fuel] eqn:Hfuel; [lia|].
  rewrite fetch_loop_turn. destruct (Z.ltb_spec 0 max_attempts); [|lia].
  rewrite Hn0, Hs0, Hout. cbv zeta. change (0 + 1) with 1.
  destruct (Z.leb_spec max_attempts 1); [lia|].
  change (retry_delay backoff 1) with (Ok (product backoff 1)).
  cbv beta iota. rewrite Hrefuse. simpl. by rewrite Ht0.
Qed.

(** X8. Whatever its parameters and whatever the server does, the fetcher
    shows no prompt, reads nothing from standard input and leaves every
    file on disk as it is. *)
Theorem fetch_applist_keeps_console_and_disk api_key w :
  prompts (snd (fetch_applist api_key timeout max_attempts backoff w))
  = prompts w
  /\ stdin (snd (fetch_applist api_key timeout max_attempts backoff w))
     = stdin w
  /\ files (snd (fetch_applist api_key timeout max_attempts backoff w))
     = files w.
Proof.
  unfold fetch_applist, mbind, M_bind. rewrite key_note_run.
  set (w0 := if bool_decide (api_key = []) then w else add_stderr KeyIgnored w).
  destruct (fetch_loop_keeps timeout max_attempts backoff
              (Z.to_nat max_attempts) 0 w0) as (_ & _ & H2 & H3 & H4 & _).
  rewrite H2, H3, H4. subst w0. by destruct (bool_decide (api_key = [])).
Qed.

(** The diagnostic lines of the loop, started before attempt [a + 1]. *)
Lemma fetch_loop_log fuel : forall (a : nat) w,
  Z.of_nat a < max_attempts ->
  (Z.to_nat max_attempts - a <= fuel)%nat ->
  exists log,
    stderr (snd (loop fuel (Z.of_nat a) w)) = stderr w ++ log
    /\ (forall (k : nat) msg, log !! k = Some msg ->
          exists e, outcome w k = Raise e
                    /\ msg = AttemptFailed (Z.of_nat (a + k) + 1) e)
    /\ length (sent (snd (loop fuel (Z.of_nat a) w)))
       = (length (sent w) + length log
          + match fst (loop fuel (Z.of_nat a) w) with
            | Ok _ => 1 | Raise _ => 0 end)%nat.
Proof.
  induction fuel as [|fuel IH]; intros a w Ha Hfuel; [lia|].
  rewrite fetch_loop_turn.
  destruct (Z.ltb_spec (Z.of_nat a) max_attempts) as [_|]; [|lia].
  destruct (attempt_result (network w (length (sent w)) rq)) as [j|e] eqn:Hout.
  - exists []. cbn [fst snd]. rewrite sent_add_sent, app_nil_r, length_app.
    simpl. split; [done|]. split; [|lia]. intros k msg Hk. by destruct k.
  - cbv zeta.
    assert (Hfirst : forall (k : nat) msg,
              [AttemptFailed (Z.of_nat a + 1) e] !! k = Some msg ->
              exists e0, outcome w k = Raise e0
                         /\ msg = AttemptFailed (Z.of_nat (a + k) + 1) e0).
    { intros [|k] msg Hk; [|by destruct k]. injection Hk as <-.
      exists e. by rewrite !Nat.add_0_r. }
    assert (Hsent1 : forall msg, sent (add_stderr msg (add_sent rq w))
                                 = sent w ++ [rq]).
    { intros msg. change (sent (add_stderr msg ?v)) with (sent v).
      apply sent_add_sent. }
    assert (Hstop : forall e' : exn, exists log,
      stderr (snd (@Raise jvalue e',
                   add_stderr (AttemptFailed (Z.of_nat a + 1) e) (add_sent rq w)))
      = stderr w ++ log
      /\ (forall (k : nat) msg, log !! k = Some msg ->
            exists e0, outcome w k = Raise e0
                       /\ msg = AttemptFailed (Z.of_nat (a + k) + 1) e0)
      /\ length (sent (snd (@Raise jvalue e',
                   add_stderr (AttemptFailed (Z.of_nat a + 1) e) (add_sent rq w))))
         = (length (sent w) + length log
            + match fst (@Raise jvalue e',
                   add_stderr (AttemptFailed (Z.of_nat a + 1) e) (add_sent rq w))
              with Ok _ => 1 | Raise _ => 0 end)%nat).
    { intros e'. exists [AttemptFailed (Z.of_nat a + 1) e]. cbn [fst snd].
      rewrite Hsent1, length_app. simpl.
      split; [done|]. split; [exact Hfirst|lia]. }
    destruct (Z.leb_spec max_attempts (Z.of_nat a + 1)) as [Hlast|Hmore];
      [apply Hstop|].
    destruct (retry_delay backoff (Z.of_nat a + 1)) as [d|e1]; [|apply Hstop].
    destruct (sleep_refusal d); [apply Hstop|].
    destruct (sleep_error w d); [apply Hstop|]. clear Hstop.
    replace (Z.of_nat a + 1) with (Z.of_nat (S a)) by lia.
    set (w' := add_slept d (add_stderr _ (add_sent rq w))).
    assert (Hsent' : sent w' = sent w ++ [rq]).
    { subst w'. by rewrite sent_add_slept, Hsent1. }
    destruct (IH (S a) w') as (log & Hlog & Hmsgs & Hlen); [lia | lia |].
    exists (AttemptFailed (Z.of_nat (S a)) e :: log).
    rewrite Hlog, Hlen, Hsent', length_app. subst w'. simpl.
    split; [by rewrite <- app_assoc|]. split; [|lia].
    intros [|k] msg Hk.
    + injection Hk as <-. exists e. rewrite !Nat.add_0_r.
      split; [done|]. f_equal. lia.
    + destruct (Hmsgs k msg Hk) as (e0 & He0 & ->).
      exists e0. rewrite Hsent', length_app in He0. simpl in He0.
      replace (length (sent w) + S k)%nat
        with (length (sent w) + 1 + k)%nat by lia.
      split; [done|]. f_equal. lia.
Qed.

(** X9. With at least one attempt allowed, what the fetcher prints is the
    note about the key, when the key is not empty, and then one line per
    failed attempt, in order, each with the number of the attempt and its
    error; every request but a final successful one has its line. *)
Theorem fetch_applist_log api_key w :
  1 <= max_attempts ->
  exists log,
    stderr (snd (fetch_applist api_key timeout max_attempts backoff w))
    = stderr w ++ (if bool_decide (api_key = []) then [] else [KeyIgnored])
      ++ log
    /\ (forall (k : nat) msg, log !! k = Some msg ->
          exists e, outcome w k = Raise e
                    /\ msg = AttemptFailed (Z.of_nat k + 1) e)
    /\ length (sent (snd (fetch_applist api_key timeout max_attempts backoff w)))
       = (length (sent w) + length log
          + match fst (fetch_applist api_key timeout max_attempts backoff w)
            with Ok _ => 1 | Raise _ => 0 end)%nat.
Proof.
  intros Hmax. unfold fetch_applist, mbind, M_bind. rewrite key_note_run.
  set (w0 := if bool_decide (api_key = []) then w else add_stderr KeyIgnored w).
  destruct (fetch_loop_log (Z.to_nat max_attempts) 0 w0)
    as (log & Hlog & Hmsgs & Hlen); [lia | lia |].
  change (Z.of_nat 0) with 0 in *.
  exists log. rewrite Hlog, Hlen. subst w0.
  destruct (bool_decide (api_key = [])); simpl.
  - split; [done|]. split; [exact Hmsgs | done].
  - split; [by rewrite <- app_assoc|]. split; [exact Hmsgs | done].
Qed.

End FetcherMore.

(** ** More on the writer *)

Section WriterMore.

Variable path : pystr.

(** X10. When the file can be opened, every identifier has at most 4300
    digits and every name can be written, [write_csv] replaces whatever the
    file held by the header and the rows of the pairs, and leaves the
    console, the network and the diagnostic stream as they were. *)
Theorem write_csv_replaces_file apps w :
  open_error w path = None ->
  ids_printable apps = true -> names_encodable apps = true ->
  files (snd (write_csv path apps w)) !! path = Some (csv_text apps)
  /\ snd (write_csv path apps w)
     = set_files (files (snd (write_csv path apps w))) w.
Proof.
  intros Hopen Hids Henc.
  destruct (write_csv_run path apps w) as (fs & Hsnd & Hrun).
  destruct (Hrun Hids) as (_ & Hpath).
  split; [rewrite Hsnd; by apply Hpath | by rewrite Hsnd].
Qed.

Lemma write_rows_partial good bad rest : forall w t,
  files w !! path = Some t ->
  ids_printable good = true -> names_encodable good = true ->
  within_str_digits (fst bad) = true -> forallb encodable (snd bad) = false ->
  fst (for_each (good ++ bad :: rest) (write_row path) w)
  = Raise UnicodeEncodeError
  /\ files (snd (for_each (good ++ bad :: rest) (write_row path) w)) !! path
     = Some (t ++ concat (map (fun p => csv_row (data_row p)) good)).
Proof.
  induction good as [|p good IH]; intros w t Ht Hids Hgood Hid Hbad.
  - cbn [app for_each]. rewrite write_row_then, Hid, Hbad.
    simpl. by rewrite app_nil_r.
  - cbn [ids_printable names_encodable forallb] in Hids, Hgood.
    apply andb_prop in Hids as [Hi Hids].
    apply andb_prop in Hgood as [Hp Hgood].
    cbn [app for_each]. rewrite write_row_then, Hi, Hp.
    destruct (IH (set_files (<[path := default [] (files w !! path)
                                       ++ csv_row (data_row p)]> (files w)) w)
                 (t ++ csv_row (data_row p))) as [Hfst Hsnd]; try done.
    { cbn [files set_files]. rewrite Ht. apply lookup_insert_eq. }
    rewrite Hfst, Hsnd. simpl. by rewrite <- app_assoc.
Qed.

(** X11. When the file can be opened and the identifiers have at most 4300
    digits each, but a name cannot be written in UTF-8, [write_csv] raises
    [UnicodeEncodeError] at the row of that name: the file is left with the
    header and the rows that come before it, and the rows after it are not
    written. *)
Theorem write_csv_stops_at_unwritable_name good bad rest w :
  open_error w path = None ->
  ids_printable good = true -> names_encodable good = true ->
  within_str_digits (fst bad) = true -> forallb encodable (snd bad) = false ->
  fst (write_csv path (good ++ bad :: rest) w) = Raise UnicodeEncodeError
  /\ files (snd (write_csv path (good ++ bad :: rest) w)) !! path
     = Some (csv_text good).
Proof.
  intros Hopen Hids Hgood Hid Hbad. unfold write_csv.
  rewrite open_w_then, Hopen, file_write_then.
  replace (forallb encodable (csv_row header_row)) with true
    by (vm_compute; reflexivity).
  apply write_rows_partial; try done.
  cbn [files set_files]. by rewrite !lookup_insert_eq.
Qed.

(** When the file cannot be opened, [write_csv] raises the error of
    [open] and the world is exactly as before. *)
Lemma write_csv_open_failure apps w e :
  open_error w path = Some e ->
  write_csv path apps w = (Raise e, w).
Proof. intros Hopen. unfold write_csv. by rewrite open_w_then, Hopen. Qed.

End WriterMore.

(** X12. The CSV text determines the pairs: two sequences of pairs with
    the same text are the same sequence. *)
Theorem csv_text_inj apps1 apps2 : csv_text apps1 = csv_text apps2 -> apps1 = apps2.
Proof.
  intros Htext. apply data_rows_inj.
  pose proof (csv_text_read apps1) as H1.
  rewrite Htext, csv_text_read in H1. congruence.
Qed.

(** ** More on the program *)

Section MainMore.

Context {python : Interpreter}.

Local Abbreviation fetched a w :=
  (fetch_applist (api_key a) 60 3 DEFAULT_BACKOFF (add_stderr Fetching w)).

(** The JSON dump, guarded as it is, changes the disk and the diagnostic
    stream only. *)
Lemma save_json_keeps data w :
  exists w',
    try_except (save_json data) (fun ex => print (JsonSaveFailed ex)) w
    = (Ok tt, w')
    /\ same_outside_disk_and_log w w'.
Proof.
  assert (Hloop : forall chunks w0, exists r fs,
            for_each chunks (file_write (lit "steam_applist.json")) w0
            = (r, set_files fs w0)).
  { induction chunks as [|c chunks IH]; intros w0.
    - exists (Ok tt), (files w0). simpl. by rewrite set_files_same.
    - cbn [for_each]. rewrite file_write_then.
      destruct (forallb encodable c).
      + destruct (IH (set_files
                        (<[lit "steam_applist.json" :=
                             default [] (files w0 !! lit "steam_applist.json")
                             ++ c]> (files w0)) w0)) as (r & fs & ->).
        by exists r, fs.
      + exists (Raise UnicodeEncodeError), (files w0).
        by rewrite set_files_same. }
  unfold try_except, save_json. rewrite open_w_then.
  destruct (open_error w _) as [e|].
  - eexists. split; [reflexivity|]. by repeat split.
  - destruct (Hloop (json_chunks data)
                (set_files (<[lit "steam_applist.json" := []]> (files w)) w))
      as (r & fs & ->).
    destruct r as [[]|e]; eexists; (split; [reflexivity|]); by repeat split.
Qed.

(** From the report of the count to the end of [main]: the world. *)
Lemma main_write_world out apps w :
  let final := snd ((print (Fetched (length apps) out);;
        written ← try_except (write_csv out apps;; mret true)
                    (fun ex => print (CsvFailed ex);; input PROMPT;; mret false);
        if written : bool then
          print Done;;
          try_except (input PROMPT;; mret tt) (fun _ => mret tt);;
          mret 0
        else mret 3) w) in
  ids_printable apps = true ->
  prompts final = prompts w ++ [PROMPT]
  /\ stdin final = tail (stdin w)
  /\ traffic final = traffic w
  /\ (open_error w out = None -> names_encodable apps = true ->
      files final !! out = Some (csv_text apps)).
Proof.
  cbv zeta. intros Hids.
  destruct (write_csv_run out apps (add_stderr (Fetched (length apps) out) w))
    as (fs & Hsnd & Hrun).
  destruct (Hrun Hids) as (Hfst & Hpath). clear Hrun.
  unfold mbind, M_bind, try_except, print, mret, M_ret. cbv beta iota.
  destruct (write_csv out apps _) as [r w1]. cbn [fst snd] in Hsnd, Hfst.
  subst w1. cbn [open_error add_stderr] in Hfst, Hpath.
  destruct r as [[]|e]; cbv beta iota.
  - unfold input. cbn [stdin add_stderr set_files].
    destruct (stdin w) eqn:Hstdin;
      cbn [fst snd prompts stdin traffic files
           add_stderr add_prompt set_stdin set_files tail];
      repeat split; try done; by rewrite ?Hstdin.
  - assert (Hbad : ~ (open_error w out = None /\ names_encodable apps = true)).
    { intros [Ho He]. by rewrite Ho, He in Hfst. }
    unfold input. cbn [stdin add_stderr set_files].
    destruct (stdin w) eqn:Hstdin;
      cbn [fst snd prompts stdin traffic files
           add_stderr add_prompt set_stdin set_files tail];
      repeat split; try done; try (by rewrite ?Hstdin);
      intros Ho He; by destruct Hbad.
Qed.

Lemma main_world a w :
  let f := fetch_applist (api_key a) 60 3 DEFAULT_BACKOFF
             (add_stderr Fetching w) in
  traffic (snd (main a w)) = traffic (snd f)
  /\ match fst f with
     | Raise _ =>
         prompts (snd (main a w)) = prompts w ++ [PROMPT]
         /\ stdin (snd (main a w)) = tail (stdin w)
     | Ok data =>
         match py_list (extract_apps data) with
         | Raise _ =>
             prompts (snd (main a w)) = prompts w
             /\ stdin (snd (main a w)) = stdin w
         | Ok apps =>
             prompts (snd (main a w)) = prompts w ++ [PROMPT]
             /\ stdin (snd (main a w)) = tail (stdin w)
             /\ (open_error w (out a) = None -> names_encodable apps = true ->
                 files (snd (main a w)) !! out a = Some (csv_text apps))
         end
     end.
Proof.
  cbv zeta. remember (main a w) as mw eqn:Hmw. unfold main in Hmw.
  change ((print Fetching ;; ?k) w) with (k (add_stderr Fetching w)) in Hmw.
  rewrite bind_run in Hmw. unfold try_except at 1, fmap, M_fmap in Hmw.
  destruct (fetch_applist_frame 60 3 DEFAULT_BACKOFF (api_key a)
              (add_stderr Fetching w)) as (Hin & Ho & Hp & _).
  pose proof (fetch_applist_decodable 60 3 DEFAULT_BACKOFF (api_key a)
                (add_stderr Fetching w)) as Hdec.
  destruct (fetch_applist _ _ _ _ _) as [[data|ex] w1];
    cbn [fst snd stdin open_error prompts add_stderr] in *.
  - specialize (Hdec data eq_refl). rewrite bind_run in Hmw.
    assert (Hdump : exists w2,
      (if json a
       then try_except (save_json data) (fun ex => print (JsonSaveFailed ex))
       else mret tt) w1 = (Ok tt, w2)
      /\ same_outside_disk_and_log w1 w2).
    { destruct (json a).
      - apply save_json_keeps.
      - exists w1. by repeat split. }
    destruct Hdump as (w2 & Hdump & _ & Ht2 & _ & Hp2 & Hin2 & Ho2).
    rewrite Hdump, bind_run in Hmw. unfold lift at 1 in Hmw.
    destruct (py_list (extract_apps data)) as [apps|e] eqn:Hx;
      cbv beta iota in Hmw; subst mw.
    + apply py_list_yielded in Hx. subst apps.
      pose proof (main_write_world (out a) (yielded (extract_apps data)) w2)
        as HW.
      cbv zeta in HW.
      destruct HW as (H1 & H2 & H3 & H5); [by apply extract_apps_printable|].
      rewrite H1, H2, H3, Ht2, Hp2, Hin2, Hp, Hin.
      repeat split; try done. intros Hopen Henc. apply H5; congruence.
    + cbn [fst snd]. rewrite Ht2, Hp2, Hin2, Hp, Hin. by repeat split.
  - subst mw. unfold mbind, M_bind, print, input, mret, M_ret.
    cbn [stdin add_stderr]. rewrite Hin.
    destruct (stdin w) eqn:Hstdin; cbn; rewrite ?Hp, ?Hstdin; by repeat split.
Qed.


(** X13. What [main] returns, in every world: when the fetch has failed,
    2 if a line is waiting at the prompt and [EOFError] if none is; when
    the extraction raises, that exception; when the CSV cannot be opened
    or a name cannot be written, 3 if a line is waiting and [EOFError] if
    none is; and 0 otherwise, with or without a line. *)
Theorem main_return_value a w :
  fst (main a w)
  = match fst (fetched a w) with
    | Raise ex => after_prompt w 2
    | Ok data =>
        match py_list (extract_apps data) with
        | Raise e => Raise e
        | Ok apps =>
            match open_error w (out a) with
            | Some _ => after_prompt w 3
            | None => if names_encodable apps then Ok 0 else after_prompt w 3
            end
        end
    end.
Proof. apply main_result. Qed.

(** X16. In every run [main] shows its prompt exactly once and takes at
    most one line from standard input, except when the extraction raises:
    then it shows no prompt and reads nothing. *)
Theorem main_prompts_once a w :
  prompts (snd (main a w))
  = prompts w ++ (if extraction_raises (fst (fetched a w)) then []
                  else [PROMPT])
  /\ stdin (snd (main a w))
     = (if extraction_raises (fst (fetched a w)) then stdin w
        else tail (stdin w)).
Proof.
  pose proof (main_world a w) as HW. cbv zeta in HW.
  destruct HW as (_ & HW). unfold extraction_raises.
  destruct (fst (fetched a w)) as [data|ex].
  - destruct (py_list (extract_apps data)) as [apps|e].
    + by destruct HW as (-> & -> & _).
    + destruct HW as (-> & ->). by rewrite app_nil_r.
  - by destruct HW as (-> & ->).
Qed.

(** X17. When the fetch returns, the extraction gives [apps], the output
    file can be opened and every name can be written, [main] returns 0 and
    the output file holds the header and the rows of [apps], whether or not
    the JSON dump was asked for (even at the same path). *)
Theorem main_writes_the_csv a w data apps :
  fst (fetched a w) = Ok data ->
  py_list (extract_apps data) = Ok apps ->
  open_error w (out a) = None -> names_encodable apps = true ->
  fst (main a w) = Ok 0
  /\ files (snd (main a w)) !! out a = Some (csv_text apps).
Proof.
  intros Hf Hx Hopen Henc. split.
  - by rewrite main_result, Hf, Hx, Hopen, Henc.
  - pose proof (main_world a w) as HW. cbv zeta in HW.
    destruct HW as (_ & HW). rewrite Hf, Hx in HW.
    destruct HW as (_ & _ & HW). by apply HW.
Qed.

(** X18. Whatever the arguments and the server, when the system carries
    out the sleeps of [2.0 * 1] and [2.0 * 2] seconds, what [main] does on
    the network and with the clock is, in this order: a request, then
    possibly the sleep of 2 seconds and a second request, then possibly the
    sleep of 4 seconds and a third request; each request is the GET of the
    fixed URL with the two fixed headers and a timeout of 60, and nothing
    after the fetch sends or sleeps. *)
Theorem main_traffic a w :
  (forall k, 1 <= k < 3 -> sleep_error w (product DEFAULT_BACKOFF k) = None) ->
  exists n : nat,
    (1 <= n <= 3)%nat
    /\ traffic (snd (main a w))
       = traffic w ++ retry_trace (the_request 60) DEFAULT_BACKOFF 0 n
    /\ product DEFAULT_BACKOFF 1 = S754_finite false 4503599627370496 (-51)
    /\ product DEFAULT_BACKOFF 2 = S754_finite false 4503599627370496 (-50)
    /\ (float_value (product DEFAULT_BACKOFF 1) == 2)%Q
    /\ (float_value (product DEFAULT_BACKOFF 2) == 4)%Q.
Proof.
  intros Hsys.
  pose proof (main_world a w) as HW. cbv zeta in HW.
  destruct HW as (Htr & _). rewrite Htr.
  destruct (fetch_applist_run 60 3 DEFAULT_BACKOFF (api_key a)
              (add_stderr Fetching w))
    as (n & Hn & Hle & Htraffic & _); [lia | |].
  { intros k Hk. specialize (Hsys k Hk).
    assert (Hcases : k = 1 \/ k = 2) by lia.
    unfold delay_accepted, sleep_accepts. cbn [sleep_error add_stderr].
    destruct Hcases as [-> | ->].
    - change (retry_delay DEFAULT_BACKOFF 1)
        with (Ok (product DEFAULT_BACKOFF 1)).
      cbv beta iota. rewrite Hsys.
      by replace (sleep_refusal (product DEFAULT_BACKOFF 1)) with (@None exn)
        by (vm_compute; reflexivity).
    - change (retry_delay DEFAULT_BACKOFF 2)
        with (Ok (product DEFAULT_BACKOFF 2)).
      cbv beta iota. rewrite Hsys.
      by replace (sleep_refusal (product DEFAULT_BACKOFF 2)) with (@None exn)
        by (vm_compute; reflexivity). }
  exists n. split; [lia|]. split; [exact Htraffic|].
  split; [vm_compute; reflexivity|]. split; [vm_compute; reflexivity|].
  split; vm_compute; reflexivity.
Qed.

(** X19. When the extraction raises on what the fetch has returned (a
    response that is not an object, an entry that is not a mapping), the
    exception leaves [main]: the process ends with status 1, having shown
    no prompt. *)
Theorem main_crashes_when_extraction_raises a w data e :
  fst (fetched a w) = Ok data ->
  py_list (extract_apps data) = Raise e ->
  fst (main a w) = Raise e
  /\ exit_status a w = 1
  /\ prompts (snd (main a w)) = prompts w.
Proof.
  intros Hf Hx. unfold exit_status. rewrite main_result, Hf, Hx.
  split; [done|]. split; [done|].
  pose proof (main_world a w) as HW. cbv zeta in HW.
  destruct HW as (_ & HW). rewrite Hf, Hx in HW. apply HW.
Qed.

End MainMore.

(** ** The properties on concrete runs *)

#[local] Existing Instance plain_python.

(** The end-to-end scenario of the specification: the CSV holds the header
    and the two rows [10,Half-Life] and [20,Portal]; the middle entry is
    dropped. *)
Example scenario_csv :
  exit_status default_args (world_of server_up []) = 0
  /\ files (snd (main default_args (world_of server_up [])))
       !! lit "steam_apps.csv"
     = Some (lit "AppId,Name" ++ [CR; LF] ++ lit "10,Half-Life" ++ [CR; LF]
             ++ lit "20,Portal" ++ [CR; LF]).
Proof. split; vm_compute; reflexivity. Qed.

(** C2, as the claim states it, fails: a response whose applist field is
    the string ["oops"] has a malformed container, and [extract_apps]
    raises [AttributeError] on it instead of returning nothing. *)
Lemma extract_apps_applist_string_raises :
  container_missing_or_malformed
    (obj [("applist"%string, JStr (lit "oops"))]) = true
  /\ py_list (extract_apps (obj [("applist"%string, JStr (lit "oops"))]))
     = Raise AttributeError.
Proof. split; vm_compute; reflexivity. Qed.

Lemma extract_apps_container_absent_witness :
  container_absent_or_false (obj [("applist"%string, JNull)]) = true
  /\ extract_apps (obj [("applist"%string, JNull)]) = Gen [] None.
Proof.
  split; [vm_compute; reflexivity|].
  apply (extract_apps_container_absent (obj [("applist"%string, JNull)])).
  vm_compute; reflexivity.
Defined.

(** C3, as the claim states it, fails: an entry that is not a mapping, here
    the number 5, is not skipped; [extract_apps] raises [AttributeError]
    on it. *)
Lemma extract_apps_entry_not_mapping_raises :
  raw_entries (obj [("applist"%string, obj [("apps"%string, JList [JInt 5])])])
  = Ok [JInt 5]
  /\ py_list (extract_apps
               (obj [("applist"%string, obj [("apps"%string, JList [JInt 5])])]))
     = Raise AttributeError.
Proof. split; vm_compute; reflexivity. Qed.

Lemma extract_apps_skips_malformed_witness :
  raw_entries scenario = Ok scenario_entries
  /\ (length (yielded (extract_apps scenario)) <= 3)%nat
  /\ extract_apps scenario = Gen (omap pair_of scenario_entries) None.
Proof.
  split; [vm_compute; reflexivity|].
  destruct (extract_apps_skips_malformed scenario scenario_entries)
    as (Hlen & _ & _ & Hall); [vm_compute; reflexivity|].
  split; [exact Hlen|]. apply Hall. vm_compute; reflexivity.
Defined.

Lemma extract_apps_preserves_order_witness :
  raw_entries scenario = Ok scenario_entries
  /\ (exists picked,
        sublist picked scenario_entries
        /\ Forall2 (fun e p => entry_turn e = Yield p) picked
                   (yielded (extract_apps scenario)))
  /\ csv_read (csv_text (yielded (extract_apps scenario)))
     = Ok (header_row :: map data_row (yielded (extract_apps scenario))).
Proof.
  split; [vm_compute; reflexivity|].
  apply (extract_apps_preserves_order scenario scenario_entries).
  vm_compute; reflexivity.
Defined.

Lemma fetch_applist_retry_policy_witness :
  1 <= 3
  /\ (forall k, 1 <= k < 3 ->
        delay_accepted (world_of server_flaky []) DEFAULT_BACKOFF k = true)
  /\ exists n : nat,
       (1 <= n)%nat /\ Z.of_nat n <= 3
       /\ traffic (snd (fetch_applist DEFAULT_API_KEY 60 3 DEFAULT_BACKOFF
                          (world_of server_flaky [])))
          = retry_trace (the_request 60) DEFAULT_BACKOFF 0 n
       /\ StronglySorted float_lt (delays DEFAULT_BACKOFF 1 (n - 1)).
Proof.
  assert (Hok : forall k, 1 <= k < 3 ->
            delay_accepted (world_of server_flaky []) DEFAULT_BACKOFF k = true).
  { intros k Hk. assert (Hcases : k = 1 \/ k = 2) by lia.
    destruct Hcases as [-> | ->]; vm_compute; reflexivity. }
  split; [lia|]. split; [exact Hok|].
  destruct (fetch_applist_retry_policy 60 3 DEFAULT_BACKOFF DEFAULT_API_KEY
              (world_of server_flaky []))
    as (n & Hn & Hle & Htr & _ & _ & _ & _ & _ & Hinc); [lia | exact Hok |].
  exists n. split; [exact Hn|]. split; [exact Hle|]. split; [exact Htr|].
  apply Hinc; [reflexivity | vm_compute; reflexivity | lia].
Defined.

(** The retry scenario of the specification: two failures, then a
    success; three requests, with sleeps of 2 and of 4 seconds between
    them. *)
Example fetch_applist_third_time :
  fst (fetch_applist DEFAULT_API_KEY 60 3 DEFAULT_BACKOFF
         (world_of server_flaky []))
  = Ok scenario
  /\ traffic (snd (fetch_applist DEFAULT_API_KEY 60 3 DEFAULT_BACKOFF
                     (world_of server_flaky [])))
     = [Sent (the_request 60);
        Slept (S754_finite false 4503599627370496 (-51));
        Sent (the_request 60);
        Slept (S754_finite false 4503599627370496 (-50));
        Sent (the_request 60)]
  /\ (float_value (S754_finite false 4503599627370496 (-51)) == 2)%Q
  /\ (float_value (S754_finite false 4503599627370496 (-50)) == 4)%Q.
Proof.
  split; [vm_compute; reflexivity|]. split; [vm_compute; reflexivity|].
  split; vm_compute; reflexivity.
Qed.

(** A backoff of a tenth of a second: the third delay is the rounded
    product, a little above three tenths. *)
Example retry_delay_rounded :
  retry_delay (S754_finite false 7205759403792794 (-56)) 3
  = Ok (S754_finite false 5404319552844596 (-54))
  /\ (3 # 10 < float_value (S754_finite false 5404319552844596 (-54)))%Q.
Proof. split; vm_compute; reflexivity. Qed.

(** A backoff of [1e10] seconds: the first delay is beyond what
    [time.sleep] converts, and its [OverflowError] ends the fetch after one
    request. *)
Example fetch_applist_huge_backoff :
  fst (fetch_applist DEFAULT_API_KEY 60 3 (float_of_Z 10000000000)
         (world_of server_down []))
  = Raise OverflowError
  /\ traffic (snd (fetch_applist DEFAULT_API_KEY 60 3 (float_of_Z 10000000000)
                     (world_of server_down [])))
     = [Sent (the_request 60)].
Proof. split; vm_compute; reflexivity. Qed.

(** A "not modified" answer has no body, whatever the server sends: each
    attempt fails to decode, and the fetch raises after the third. *)
Example fetch_applist_not_modified :
  fst (fetch_applist DEFAULT_API_KEY 60 3 DEFAULT_BACKOFF
         (world_of server_not_modified []))
  = Raise JSONDecodeError
  /\ length (sent (snd (fetch_applist DEFAULT_API_KEY 60 3 DEFAULT_BACKOFF
                          (world_of server_not_modified [])))) = 3%nat.
Proof. split; vm_compute; reflexivity. Qed.

(** An identifier of 4301 digits cannot be turned into text: [write_csv]
    raises [ValueError] and the file is left with the header only. *)
Example write_csv_long_identifier :
  fst (write_csv (lit "steam_apps.csv") [(10 ^ 4300, lit "x")]
         (world_of server_up []))
  = Raise ValueError
  /\ files (snd (write_csv (lit "steam_apps.csv") [(10 ^ 4300, lit "x")]
                   (world_of server_up [])))
       !! lit "steam_apps.csv"
     = Some (lit "AppId,Name" ++ [CR; LF]).
Proof. split; vm_compute; reflexivity. Qed.

(** C7, as the claim states it, fails: a name that is a lone surrogate
    cannot be written in UTF-8; [write_csv] raises and the file read back
    holds the header only, not the row of the pair. *)
Lemma write_csv_lone_surrogate_raises :
  fst (write_csv (lit "steam_apps.csv") [(1, [0xD800%N])]
         (world_of server_up []))
  = Raise UnicodeEncodeError
  /\ csv_read <$> files (snd (write_csv (lit "steam_apps.csv") [(1, [0xD800%N])]
                              (world_of server_up [])))
                 !! lit "steam_apps.csv"
     = Some (Ok [header_row]).
Proof. split; vm_compute; reflexivity. Qed.

Lemma write_csv_roundtrip_witness :
  open_error (world_of server_up []) (lit "out.csv") = None
  /\ ids_printable [(10, lit "Half-Life"); (20, [34; 44; 10; 233]%N)] = true
  /\ names_encodable [(10, lit "Half-Life"); (20, [34; 44; 10; 233]%N)] = true
  /\ exists text,
       files (snd (write_csv (lit "out.csv")
                     [(10, lit "Half-Life"); (20, [34; 44; 10; 233]%N)]
                     (world_of server_up []))) !! lit "out.csv" = Some text
       /\ csv_read text
          = Ok [header_row; [lit "10"; lit "Half-Life"];
                [lit "20"; [34; 44; 10; 233]%N]].
Proof.
  split; [reflexivity|]. split; [vm_compute; reflexivity|].
  split; [vm_compute; reflexivity|].
  destruct (write_csv_roundtrip (lit "out.csv")
              [(10, lit "Half-Life"); (20, [34; 44; 10; 233]%N)]
              (world_of server_up []))
    as (_ & text & Hfile & Hread & _);
    [reflexivity | vm_compute; reflexivity | vm_compute; reflexivity |].
  exists text. split; [exact Hfile | exact Hread].
Defined.

Lemma write_csv_empty_witness :
  open_error (world_of server_up []) (lit "out.csv") = None
  /\ files (snd (write_csv (lit "out.csv") [] (world_of server_up [])))
       !! lit "out.csv"
     = Some (lit "AppId,Name" ++ [CR; LF]).
Proof.
  split; [reflexivity|].
  apply (write_csv_empty (lit "out.csv") (world_of server_up [])).
  reflexivity.
Defined.

(** C4. The program should hold the console and then end with the code of
    its outcome even when no input stream is there. With the server down
    and standard input at its end, the prompt of line 90 is shown and its
    [EOFError] leaves [main]: the process ends with status 1, not 2. With
    a line to read the status is 2, and on the success path, where the
    prompt of line 112 is guarded, the status is 0 without any input. *)
Theorem main_fetch_failure_prompt_unguarded :
  fst (main default_args (world_of server_down [])) = Raise EOFError
  /\ prompts (snd (main default_args (world_of server_down []))) = [PROMPT]
  /\ exit_status default_args (world_of server_down []) = 1
  /\ exit_status default_args (world_of server_down [[]]) = 2
  /\ exit_status default_args (world_of server_up []) = 0.
Proof.
  split; [vm_compute; reflexivity|]. split; [vm_compute; reflexivity|].
  split; [vm_compute; reflexivity|]. split; vm_compute; reflexivity.
Qed.

(** C8. The exit code should be 3 when the CSV cannot be written. With the
    output path refused and standard input at its end, the prompt of line
    107 raises [EOFError] out of [main] and the process ends with status
    1, not 3. With a line to read the status is 3. A JSON dump that
    cannot be written is reported and the run still ends with status 0. *)
Theorem main_csv_failure_prompt_unguarded :
  fst (main default_args
         (world_refusing (lit "steam_apps.csv") server_up []))
  = Raise EOFError
  /\ exit_status default_args
       (world_refusing (lit "steam_apps.csv") server_up []) = 1
  /\ exit_status default_args
       (world_refusing (lit "steam_apps.csv") server_up [[]]) = 3
  /\ exit_status json_args
       (world_refusing (lit "steam_applist.json") server_up []) = 0
  /\ stderr (snd (main json_args
                    (world_refusing (lit "steam_applist.json") server_up [])))
     = [Fetching; KeyIgnored; JsonSaveFailed (OSError 13);
        Fetched 2 (lit "steam_apps.csv"); Done].
Proof.
  split; [vm_compute; reflexivity|]. split; [vm_compute; reflexivity|].
  split; [vm_compute; reflexivity|]. split; vm_compute; reflexivity.
Qed.

(** *** Runs of the further properties *)

Lemma usual_entry_half_life : usual_entry entry_half_life (10, lit "Half-Life").
Proof.
  unfold usual_entry, entry_half_life, obj. eexists _, (JInt 10).
  split; [reflexivity|]. split; [vm_compute; reflexivity|].
  split; [reflexivity|]. split; [reflexivity|].
  left. split; [vm_compute; reflexivity | discriminate].
Defined.

Lemma usual_entry_nameless : usual_entry entry_nameless (20, []).
Proof.
  unfold usual_entry, entry_nameless, obj. eexists _, (JStr (lit "20")).
  split; [reflexivity|]. split; [vm_compute; reflexivity|].
  split; [reflexivity|]. split; [vm_compute; reflexivity|].
  right. split; [vm_compute; reflexivity|]. split; [vm_compute; reflexivity|].
  reflexivity.
Defined.

Lemma extract_apps_output_is_fixed_point_witness :
  In (10, lit "Half-Life") (yielded (extract_apps scenario))
  /\ usual_entry entry_half_life (10, lit "Half-Life")
  /\ entry_turn entry_half_life = Yield (10, lit "Half-Life").
Proof.
  assert (Hin : In (10, lit "Half-Life") (yielded (extract_apps scenario))).
  { vm_compute. left. reflexivity. }
  split; [exact Hin|]. split; [exact usual_entry_half_life|].
  exact (extract_apps_output_is_fixed_point scenario (10, lit "Half-Life")
           entry_half_life Hin usual_entry_half_life).
Defined.

Lemma extract_apps_usual_entries_witness :
  raw_entries (response_of [entry_half_life; entry_nameless])
  = Ok [entry_half_life; entry_nameless]
  /\ Forall2 usual_entry [entry_half_life; entry_nameless]
             [(10, lit "Half-Life"); (20, [])]
  /\ extract_apps (response_of [entry_half_life; entry_nameless])
     = Gen [(10, strip (lit "Half-Life")); (20, strip [])] None.
Proof.
  assert (Hraw : raw_entries (response_of [entry_half_life; entry_nameless])
                 = Ok [entry_half_life; entry_nameless]).
  { vm_compute. reflexivity. }
  assert (Hall : Forall2 usual_entry [entry_half_life; entry_nameless]
                         [(10, lit "Half-Life"); (20, [])]).
  { constructor; [exact usual_entry_half_life|].
    constructor; [exact usual_entry_nameless | constructor]. }
  split; [exact Hraw|]. split; [exact Hall|].
  exact (extract_apps_usual_entries _ _ _ Hraw Hall).
Defined.

Lemma extract_apps_stops_at_non_mapping_witness :
  raw_entries (response_of [entry_half_life; JInt 5; entry_nameless])
  = Ok ([entry_half_life] ++ JInt 5 :: [entry_nameless])
  /\ forallb is_mapping [entry_half_life] = true
  /\ is_mapping (JInt 5) = false
  /\ extract_apps (response_of [entry_half_life; JInt 5; entry_nameless])
     = Gen (omap pair_of [entry_half_life]) (Some AttributeError).
Proof.
  split; [vm_compute; reflexivity|]. split; [reflexivity|].
  split; [reflexivity|].
  apply (extract_apps_stops_at_non_mapping
           (response_of [entry_half_life; JInt 5; entry_nameless])
           [entry_half_life] (JInt 5) [entry_nameless]);
    [vm_compute; reflexivity | reflexivity | reflexivity].
Defined.

Lemma fetch_applist_no_attempts_witness :
  0 <= 0
  /\ fetch_applist [] 60 0 DEFAULT_BACKOFF (world_of server_up [])
     = (Ok JNull, world_of server_up []).
Proof.
  split; [lia|].
  exact (fetch_applist_no_attempts 60 0 DEFAULT_BACKOFF [] (world_of server_up [])
           (Z.le_refl 0)).
Defined.

Lemma fetch_applist_accepts_non_error_status_witness :
  1 <= 3
  /\ network (world_of server_created [])
       (length (sent (world_of server_created []))) (the_request 60)
     = Response 201 (Some scenario)
  /\ (200 <= 201 < 400 \/ 600 <= 201 < 1000) /\ 201 <> 204 /\ 201 <> 304
  /\ json_decodable scenario = true
  /\ fst (fetch_applist DEFAULT_API_KEY 60 3 DEFAULT_BACKOFF
            (world_of server_created [])) = Ok scenario
  /\ traffic (snd (fetch_applist DEFAULT_API_KEY 60 3 DEFAULT_BACKOFF
                     (world_of server_created [])))
     = [Sent (the_request 60)].
Proof.
  split; [lia|]. split; [reflexivity|]. split; [left; lia|].
  split; [lia|]. split; [lia|]. split; [vm_compute; reflexivity|].
  apply (fetch_applist_accepts_non_error_status 60 3 DEFAULT_BACKOFF
           DEFAULT_API_KEY (world_of server_created []) 201 scenario);
    [lia | reflexivity | left; lia | lia | lia | vm_compute; reflexivity].
Defined.

Lemma fetch_applist_negative_backoff_witness :
  2 <= 3
  /\ nanoseconds (product (S754_finite true 4503599627370496 (-52)) 1)
     = Some (- 1000000000)
  /\ - 2 ^ 63 <= - 1000000000 < 0
  /\ attempt_result (network (world_of server_down [])
                       (length (sent (world_of server_down [])))
                       (the_request 60))
     = Raise (NetworkError 0)
  /\ fst (fetch_applist DEFAULT_API_KEY 60 3
            (S754_finite true 4503599627370496 (-52))
            (world_of server_down []))
     = Raise ValueError
  /\ traffic (snd (fetch_applist DEFAULT_API_KEY 60 3
                     (S754_finite true 4503599627370496 (-52))
                     (world_of server_down [])))
     = [Sent (the_request 60)].
Proof.
  split; [lia|]. split; [vm_compute; reflexivity|]. split; [lia|].
  split; [reflexivity|].
  apply (fetch_applist_negative_backoff 60 3
           (S754_finite true 4503599627370496 (-52)) DEFAULT_API_KEY
           (world_of server_down []) (NetworkError 0) (- 1000000000));
    [lia | vm_compute; reflexivity | lia | reflexivity].
Defined.

Lemma fetch_applist_log_witness :
  1 <= 3
  /\ exists log,
       stderr (snd (fetch_applist DEFAULT_API_KEY 60 3 DEFAULT_BACKOFF
                      (world_of server_flaky [])))
       = [] ++ [KeyIgnored] ++ log
       /\ length (sent (snd (fetch_applist DEFAULT_API_KEY 60 3 DEFAULT_BACKOFF
                               (world_of server_flaky []))))
          = (0 + length log + 1)%nat.
Proof.
  split; [lia|].
  destruct (fetch_applist_log 60 3 DEFAULT_BACKOFF DEFAULT_API_KEY (world_of server_flaky []))
    as (log & Hlog & _ & Hlen); [lia|].
  exists log. split; [exact Hlog | exact Hlen].
Defined.

Lemma write_csv_replaces_file_witness :
  open_error (world_of server_up []) (lit "out.csv") = None
  /\ ids_printable [(10, lit "Half-Life")] = true
  /\ names_encodable [(10, lit "Half-Life")] = true
  /\ files (snd (write_csv (lit "out.csv") [(10, lit "Half-Life")]
                  (world_of server_up []))) !! lit "out.csv"
     = Some (csv_text [(10, lit "Half-Life")]).
Proof.
  split; [reflexivity|]. split; [vm_compute; reflexivity|].
  split; [vm_compute; reflexivity|].
  apply (write_csv_replaces_file (lit "out.csv") [(10, lit "Half-Life")]
           (world_of server_up []));
    [reflexivity | vm_compute; reflexivity | vm_compute; reflexivity].
Defined.

Lemma write_csv_stops_at_unwritable_name_witness :
  open_error (world_of server_up []) (lit "out.csv") = None
  /\ ids_printable [(1, lit "a")] = true
  /\ names_encodable [(1, lit "a")] = true
  /\ within_str_digits (fst (2, [0xD800%N])) = true
  /\ forallb encodable (snd (2, [0xD800%N])) = false
  /\ files (snd (write_csv (lit "out.csv")
                  ([(1, lit "a")] ++ (2, [0xD800%N]) :: [(3, lit "c")])
                  (world_of server_up []))) !! lit "out.csv"
     = Some (csv_text [(1, lit "a")]).
Proof.
  split; [reflexivity|]. split; [vm_compute; reflexivity|].
  split; [vm_compute; reflexivity|]. split; [vm_compute; reflexivity|].
  split; [vm_compute; reflexivity|].
  apply (write_csv_stops_at_unwritable_name (lit "out.csv") [(1, lit "a")]
           (2, [0xD800%N]) [(3, lit "c")] (world_of server_up []));
    [reflexivity | vm_compute; reflexivity | vm_compute; reflexivity
    | vm_compute; reflexivity | vm_compute; reflexivity].
Defined.

Lemma csv_text_inj_witness :
  csv_text [(1, lit "x")] = csv_text [(1, lit "x")]
  /\ [(1, lit "x")] = [(1, lit "x")].
Proof.
  split; [reflexivity|].
  exact (csv_text_inj [(1, lit "x")] [(1, lit "x")] eq_refl).
Defined.

Lemma exit_status_with_input_witness :
  stdin (world_of server_down [[]]) = [] :: []
  /\ exit_status default_args (world_of server_down [[]]) = 2.
Proof.
  split; [reflexivity|].
  destruct (exit_status_with_input default_args (world_of server_down [[]])
              [] [] eq_refl) as [Hfail _].
  apply (Hfail (NetworkError 0)). vm_compute. reflexivity.
Defined.

Lemma main_writes_the_csv_witness :
  fst (fetch_applist (api_key default_args) 60 3 DEFAULT_BACKOFF
         (add_stderr Fetching (world_of server_up []))) = Ok scenario
  /\ py_list (extract_apps scenario)
     = Ok [(10, lit "Half-Life"); (20, lit "Portal")]
  /\ open_error (world_of server_up []) (out default_args) = None
  /\ names_encodable [(10, lit "Half-Life"); (20, lit "Portal")] = true
  /\ files (snd (main default_args (world_of server_up []))) !! out default_args
     = Some (csv_text [(10, lit "Half-Life"); (20, lit "Portal")]).
Proof.
  split; [vm_compute; reflexivity|]. split; [vm_compute; reflexivity|].
  split; [reflexivity|]. split; [vm_compute; reflexivity|].
  apply (main_writes_the_csv default_args (world_of server_up []) scenario
           [(10, lit "Half-Life"); (20, lit "Portal")]);
    [vm_compute; reflexivity | vm_compute; reflexivity | reflexivity
    | vm_compute; reflexivity].
Defined.

Lemma main_crashes_when_extraction_raises_witness :
  fst (fetch_applist (api_key default_args) 60 3 DEFAULT_BACKOFF
         (add_stderr Fetching (world_of server_array []))) = Ok (JList [])
  /\ py_list (extract_apps (JList [])) = Raise AttributeError
  /\ exit_status default_args (world_of server_array []) = 1.
Proof.
  split; [vm_compute; reflexivity|]. split; [reflexivity|].
  apply (main_crashes_when_extraction_raises default_args
           (world_of server_array []) (JList []) AttributeError);
    [vm_compute; reflexivity | reflexivity].
Defined.

Lemma main_traffic_witness :
  (forall k, 1 <= k < 3 ->
     sleep_error (world_of server_flaky []) (product DEFAULT_BACKOFF k) = None)
  /\ exists n : nat,
       (1 <= n <= 3)%nat
       /\ traffic (snd (main default_args (world_of server_flaky [])))
          = retry_trace (the_request 60) DEFAULT_BACKOFF 0 n.
Proof.
  split; [intros k Hk; reflexivity|].
  destruct (main_traffic default_args (world_of server_flaky []))
    as (n & Hn & Htr & _); [intros k Hk; reflexivity|].
  exists n. split; [exact Hn | exact Htr].
Defined.
